(** * yatsdb console: the polling watch and the chart table assembly

  A shallow embedding of [console.js] (the [Console] / [Chart] front end)
  and of the [TSDBClient] / [TSDBWatch] polling client that is shipped with
  it, together with the properties of the natural-language specification
  that can be stated over them.

  Conventions.
  - JavaScript numbers are modelled as exact rationals ([Q]); every constant
    of the program (0.5, 2, 32, 40, 1000) and every value the backoff
    reaches is a dyadic rational that IEEE doubles represent exactly.
    Numeric statements are up to [Qeq] ([==]).
  - The browser is modelled by the part of its state the program can
    observe: the timers armed through [window.setTimeout], the number of
    XMLHttpRequests whose completion event has not been dispatched yet and
    the console.
  - A callback is modelled by the log of the arguments it was invoked with. *)

From Stdlib Require Import ZArith QArith Qminmax Qpower String Ascii List Lia Bool PeanoNat.
Import ListNotations.

Set Warnings "-register-all".

Local Open Scope Q_scope.

(** ** Values of [xhr.response] when [responseType] is ['json'] *)

Module Json.

(** The decoded body, or [JNull] when the body is empty or does not parse. *)
Inductive value : Type :=
| JNull
| JBool (b : bool)
| JNum (q : Q)
| JStr (s : string)
| JArr (items : list value)
| JObj (fields : list (string * value)).

(** ECMAScript [ToBoolean]: what [if (!data)] tests. *)
Definition truthy (v : value) : bool :=
  match v with
  | JNull => false
  | JBool b => b
  | JNum q => negb (Qeq_bool q 0)
  | JStr s => negb (String.eqb s EmptyString)
  | JArr _ => true
  | JObj _ => true
  end.

End Json.

(** ** [TSDBWatch]: one polling loop *)

Module TSDBWatch.

Import Json.

Definition MIN_DELAY : Q := 1 # 2.
Definition MAX_DELAY : Q := 32.
Definition DELAY_MULT : Q := 2.

(** The fields of a [TSDBWatch] object that its methods read or write after
    construction. [url_] is only handed to [xhr.open] and [callback_] is
    represented by the log [delivered] below. A timer handle returned by
    [setTimeout] is a positive integer, hence truthy; [None] stands for
    [null]. *)
Record watch : Type := mkWatch {
  refresh_ : Q;
  delay_ : Q;
  timer_ : option positive
}.

(** The watch together with the browser state it interacts with. *)
Record world : Type := mkWorld {
  this : watch;
  pending : list (positive * Q);   (* armed timers: handle, milliseconds *)
  next_handle : positive;          (* next handle [setTimeout] returns *)
  inflight : nat;                  (* requests sent and not yet completed *)
  delivered : list value;          (* arguments of the calls of [callback_] *)
  console_log : list string
}.

Definition set_this (f : watch -> watch) (w : world) : world :=
  mkWorld (f (this w)) (pending w) (next_handle w) (inflight w)
          (delivered w) (console_log w).

Definition set_timer (t : option positive) (s : watch) : watch :=
  mkWatch (refresh_ s) (delay_ s) t.

Definition set_delay (d : Q) (s : watch) : watch :=
  mkWatch (refresh_ s) d (timer_ s).

(** [window.setTimeout(f, ms)], where [f] is always [sendRequest_]. *)
Definition setTimeout (ms : Q) (w : world) : positive * world :=
  (next_handle w,
   mkWorld (this w) (pending w ++ [(next_handle w, ms)])
           (Pos.succ (next_handle w)) (inflight w)
           (delivered w) (console_log w)).

(** [window.clearTimeout(h)]. *)
Definition clearTimeout (h : positive) (w : world) : world :=
  mkWorld (this w)
          (filter (fun p => negb (Pos.eqb (fst p) h)) (pending w))
          (next_handle w) (inflight w) (delivered w) (console_log w).

Definition xhr_send (w : world) : world :=
  mkWorld (this w) (pending w) (next_handle w) (S (inflight w))
          (delivered w) (console_log w).

Definition callback_ (data : value) (w : world) : world :=
  mkWorld (this w) (pending w) (next_handle w) (inflight w)
          (delivered w ++ [data]) (console_log w).

Definition console_log_ (msg : string) (w : world) : world :=
  mkWorld (this w) (pending w) (next_handle w) (inflight w)
          (delivered w) (console_log w ++ [msg]).

Definition destroy (w : world) : world :=
  match timer_ (this w) with
  | Some h => clearTimeout h w
  | None => w
  end.

Definition sendRequest_ (w : world) : world :=
  xhr_send (set_this (set_timer None) w).

Definition retry_ (w : world) : world :=
  match timer_ (this w) with
  | Some _ => console_log_ "Duplicate retry call" w
  | None =>
      let (h, w1) := setTimeout (delay_ (this w) * 1000) w in
      let w2 := set_this (set_timer (Some h)) w1 in
      set_this (set_delay (Qmin (delay_ (this w2) * DELAY_MULT) MAX_DELAY)) w2
  end.

Definition onLoad_ (data : value) (w : world) : world :=
  if negb (truthy data) then retry_ w
  else
    let w1 := set_this (set_delay MIN_DELAY) w in
    let w2 := callback_ data w1 in
    let (h, w3) := setTimeout (refresh_ (this w2) * 1000) w2 in
    set_this (set_timer (Some h)) w3.

(** [new TSDBWatch(baseURL, expr, windowSeconds, resolution, callback)] in a
    browser with no timer armed and no request in flight. *)
Definition new (windowSeconds : Q) : world :=
  sendRequest_
    (mkWorld (mkWatch (windowSeconds / 40) MIN_DELAY None) [] 1%positive 0 [] []).

(** *** What can happen to a watch

    A timer that is armed fires and runs [sendRequest_]; a request in flight
    completes with exactly one of [load], [error] and [timeout]; the owner
    calls [destroy]. *)
Inductive event : Type :=
| EvFire (h : positive)
| EvLoad (data : value)
| EvError
| EvTimeout
| EvDestroy.

Definition armed (h : positive) (w : world) : bool :=
  existsb (fun p => Pos.eqb (fst p) h) (pending w).

Definition complete (w : world) : world :=
  mkWorld (this w) (pending w) (next_handle w) (pred (inflight w))
          (delivered w) (console_log w).

Definition step (w : world) (e : event) : option world :=
  match e with
  | EvFire h =>
      if armed h w then Some (sendRequest_ (clearTimeout h w)) else None
  | EvLoad data =>
      if (0 <? inflight w)%nat then Some (onLoad_ data (complete w)) else None
  | EvError | EvTimeout =>
      if (0 <? inflight w)%nat then Some (retry_ (complete w)) else None
  | EvDestroy => Some (destroy w)
  end.

Fixpoint run (w : world) (es : list event) : option world :=
  match es with
  | [] => Some w
  | e :: es' =>
      match step w e with
      | Some w' => run w' es'
      | None => None
      end
  end.

(** The states a run from [new windowSeconds] can be in. *)
Definition reachable_from (windowSeconds : Q) (w : world) : Prop :=
  exists es, run (new windowSeconds) es = Some w.

(** The request of the current cycle is in flight. *)
Definition requesting (w : world) : Prop :=
  inflight w = 1%nat /\ pending w = [] /\ timer_ (this w) = None.

(** The timer of the next cycle is armed. *)
Definition waiting (w : world) : Prop :=
  inflight w = 0%nat /\
  exists h ms, pending w = [(h, ms)] /\ timer_ (this w) = Some h.

(** The timer of the next cycle was cancelled by [destroy]. *)
Definition stopped (w : world) : Prop :=
  inflight w = 0%nat /\ pending w = [] /\ exists h, timer_ (this w) = Some h.

(** The cycle of a watch: in every state a run reaches, either the request
    is in flight and no timer is armed, or no request is in flight and the
    one timer armed is the one [timer_] names, or [destroy] cancelled that
    timer. [refresh_] never changes. *)
Definition cycle_invariant (windowSeconds : Q) (w : world) : Prop :=
  refresh_ (this w) = windowSeconds / 40
  /\ (requesting w \/ waiting w \/ stopped w).

(** The outcomes of a request that the program treats as a failure. *)
Definition failure (e : event) : bool :=
  match e with
  | EvError | EvTimeout => true
  | EvLoad data => negb (truthy data)
  | EvFire _ | EvDestroy => false
  end.

(** One poll: the request in flight completes with [e], which arms one
    timer; that timer fires. The result carries the milliseconds the timer
    was armed with. *)
Definition poll (e : event) (w : world) : option (Q * world) :=
  match step w e with
  | None => None
  | Some w1 =>
      match pending w1 with
      | [(h, ms)] =>
          match step w1 (EvFire h) with
          | None => None
          | Some w2 => Some (ms, w2)
          end
      | _ => None
      end
  end.

Fixpoint polls (es : list event) (w : world) : option (list Q * world) :=
  match es with
  | [] => Some ([], w)
  | e :: es' =>
      match poll e w with
      | None => None
      | Some (ms, w1) =>
          match polls es' w1 with
          | None => None
          | Some (l, w2) => Some (ms :: l, w2)
          end
      end
  end.

(** The backoff delay, in seconds, in closed form: the delay the retry after
    the failure number [k] (counted from 0) waits for. *)
Definition backoff (k : nat) : Q :=
  Qmin (MIN_DELAY * DELAY_MULT ^ Z.of_nat k) MAX_DELAY.

End TSDBWatch.

(** ** [Chart.prototype.drawChart_]: from the series of one poll to the table *)

Module Chart.

(** One element of the response array. [tags] lists the properties of the
    [tags] object in the order [for (var key in ts.tags)] visits them;
    [timestamps_values] holds the pairs [[epochSeconds, value]]. Timestamps
    are whole epoch seconds. *)
Record series : Type := mkSeries {
  tags : list (string * string);
  timestamps_values : list (Z * Q)
}.

(** A cell of a row handed to [addRow]: [new Date(ms)], a number or [null]. *)
Inductive cell : Type :=
| CDate (ms : Z)
| CNum (v : Q)
| CNull.

(** [google.visualization.DataTable], as far as the program fills it:
    the declared columns (type, label) and the rows, both in call order. *)
Record DataTable : Type := mkTable {
  columns : list (string * string);
  rows : list (list cell)
}.

Definition newDataTable : DataTable := mkTable [] [].

Definition addColumn (type label : string) (dt : DataTable) : DataTable :=
  mkTable (columns dt ++ [(type, label)]) (rows dt).

Definition addRow (row : list cell) (dt : DataTable) : DataTable :=
  mkTable (columns dt) (rows dt ++ [row]).

(** [Array.prototype.join]. *)
Fixpoint join (sep : string) (l : list string) : string :=
  match l with
  | [] => EmptyString
  | [x] => x
  | x :: rest => (x ++ sep ++ join sep rest)%string
  end.

(** The label built by the [for ... in] loop over [ts.tags]. *)
Definition label (ts : series) : string :=
  join "," (map (fun kv => (fst kv ++ "=" ++ snd kv)%string) (tags ts)).

(** [data.splice(i, 1)]. *)
Definition splice1 {A : Type} (i : nat) (data : list A) : list A :=
  firstn i data ++ skipn (S i) data.

(** The first loop, [for (var i = data.length - 1; i >= 0; i--)]; the
    counter [n] is [i + 1]. Reading past the end of [data] would make [ts]
    undefined and the property access throw: [None]. *)
Fixpoint columns_loop (n : nat) (data : list series) (dt : DataTable)
  : option (list series * DataTable) :=
  match n with
  | O => Some (data, dt)
  | S i =>
      match nth_error data i with
      | None => None
      | Some ts =>
          if (length (timestamps_values ts) =? 0)%nat
          then columns_loop i (splice1 i data) dt
          else columns_loop i data (addColumn "number" (label ts) dt)
      end
  end.

(** The row built for sample [tv] of [data[i]], with [n = data.length]. *)
Definition make_row (i n : nat) (tv : Z * Q) : list cell :=
  [CDate (fst tv * 1000)%Z] ++ repeat CNull i ++ [CNum (snd tv)]
    ++ repeat CNull (n - (i + 1)).

(** The second loop, [for (var i = 0; i < data.length; i++)]; [todo] counts
    the iterations left. *)
Fixpoint rows_loop (todo i : nat) (data : list series) (dt : DataTable)
  : option DataTable :=
  match todo with
  | O => Some dt
  | S todo' =>
      match nth_error data i with
      | None => None
      | Some ts =>
          rows_loop todo' (S i) data
            (fold_left (fun t tv => addRow (make_row i (length data) tv) t)
                       (timestamps_values ts) dt)
      end
  end.

(** [drawChart_(data)]: the array [data] as the call leaves it and the table
    handed to [LineChart.draw]. *)
Definition drawChart_ (data : list series) : option (list series * DataTable) :=
  match columns_loop (length data) data
          (addColumn "date" "Timestamp" newDataTable) with
  | None => None
  | Some (data', dt) =>
      match rows_loop (length data') 0 data' dt with
      | None => None
      | Some dt' => Some (data', dt')
      end
  end.

(** The series [drawChart_] keeps, as the specification words it. *)
Definition retained (data : list series) : list series :=
  filter (fun ts => negb (length (timestamps_values ts) =? 0)%nat) data.

(** The labels of the value columns of a table (all columns but the first). *)
Definition value_labels (dt : DataTable) : list string :=
  map snd (tl (columns dt)).

(** The column declared for a retained series. *)
Definition number_column (ts : series) : string * string :=
  ("number"%string, label ts).

(** The rows of the series [l], the first of which sits at index [i] of an
    array of [n] series. *)
Fixpoint rows_of (n i : nat) (l : list series) : list (list cell) :=
  match l with
  | [] => []
  | ts :: rest =>
      map (make_row i n) (timestamps_values ts) ++ rows_of n (S i) rest
  end.

(** The total number of samples of a series set. *)
Definition samples (data : list series) : nat :=
  list_sum (map (fun ts => length (timestamps_values ts)) data).



(** The series of the example of the specification. *)
Definition host_a : series :=
  mkSeries [("host", "a")%string] [(100%Z, 1%Q); (200%Z, 2%Q)].
Definition host_b : series :=
  mkSeries [("host", "b")%string] [(150%Z, 3%Q)].

End Chart.

(** ** [encodeURIComponent] and [decodeURIComponent]

    The two functions are built into the language; they are modelled after
    the abstract operations Encode and Decode of ECMA-262 (sec. 19.2.6). A
    JavaScript string is its sequence of UTF-16 code units, each an integer
    below 65536. [None] stands for a thrown [URIError]. *)

Module URI.

Local Open Scope Z_scope.

Definition jsstring : Type := list Z.

(** The code units of an ASCII literal. *)
Fixpoint units (s : string) : jsstring :=
  match s with
  | EmptyString => []
  | String a rest => Z.of_nat (nat_of_ascii a) :: units rest
  end.

Definition between (lo c hi : Z) : bool := (lo <=? c) && (c <=? hi).

Definition is_leading_surrogate (c : Z) : bool := between 55296 c 56319.
Definition is_trailing_surrogate (c : Z) : bool := between 56320 c 57343.

(** uriUnescaped: letters, digits and the marks [- _ . ! ~ * ' ( )]. *)
Definition unescaped (c : Z) : bool :=
  between 65 c 90 || between 97 c 122 || between 48 c 57
  || existsb (Z.eqb c) (units "-_.!~*'()").

(** [UTF16SurrogatePairToCodePoint]. *)
Definition pair_to_code_point (lead trail : Z) : Z :=
  (lead - 55296) * 1024 + (trail - 56320) + 65536.

(** [UTF16EncodeCodePoint]. *)
Definition UTF16EncodeCodePoint (cp : Z) : jsstring :=
  if cp <? 65536 then [cp]
  else [(cp - 65536) / 1024 + 55296; (cp - 65536) mod 1024 + 56320].

(** The octets of the UTF-8 encoding of a code point. *)
Definition utf8 (cp : Z) : list Z :=
  if cp <? 128 then [cp]
  else if cp <? 2048 then [192 + cp / 64; 128 + cp mod 64]
  else if cp <? 65536 then
    [224 + cp / 4096; 128 + (cp / 64) mod 64; 128 + cp mod 64]
  else
    [240 + cp / 262144; 128 + (cp / 4096) mod 64;
     128 + (cp / 64) mod 64; 128 + cp mod 64].

(** An upper-case hexadecimal digit, as a code unit. *)
Definition hexdigit (d : Z) : Z := if d <? 10 then 48 + d else 55 + d.

(** An octet escaped: [%XX]. *)
Definition escape (b : Z) : jsstring :=
  [37; hexdigit (b / 16); hexdigit (b mod 16)].

(** Encode, with the unescaped set of [encodeURIComponent]. *)
Fixpoint encodeURIComponent (s : jsstring) : option jsstring :=
  match s with
  | [] => Some []
  | c :: rest =>
      if unescaped c then option_map (cons c) (encodeURIComponent rest)
      else if is_trailing_surrogate c then None
      else if is_leading_surrogate c then
        match rest with
        | [] => None
        | c2 :: rest' =>
            if is_trailing_surrogate c2
            then option_map
                   (app (flat_map escape (utf8 (pair_to_code_point c c2))))
                   (encodeURIComponent rest')
            else None
        end
      else option_map (app (flat_map escape (utf8 c))) (encodeURIComponent rest)
  end.

(** The value of a hexadecimal digit of either case. *)
Definition hexval (c : Z) : option Z :=
  if between 48 c 57 then Some (c - 48)
  else if between 65 c 70 then Some (c - 55)
  else if between 97 c 102 then Some (c - 87)
  else None.

(** The octet of the escape [%XX] at the head of [s], and what follows it. *)
Definition unescape (s : jsstring) : option (Z * jsstring) :=
  match s with
  | p :: c1 :: c2 :: rest =>
      if p =? 37 then
        match hexval c1, hexval c2 with
        | Some hi, Some lo => Some (16 * hi + lo, rest)
        | _, _ => None
        end
      else None
  | _ => None
  end.

(** [n] further escapes, the continuation octets of a sequence. *)
Fixpoint continuation (n : nat) (s : jsstring) : option (list Z * jsstring) :=
  match n with
  | O => Some ([], s)
  | S n' =>
      match unescape s with
      | None => None
      | Some (b, rest) =>
          match continuation n' rest with
          | None => None
          | Some (bs, rest') => Some (b :: bs, rest')
          end
      end
  end.

(** The number of leading 1 bits of an octet (5 stands for 5 or more). *)
Definition leading_ones (b : Z) : nat :=
  if b <? 128 then 0
  else if b <? 192 then 1
  else if b <? 224 then 2
  else if b <? 240 then 3
  else if b <? 248 then 4
  else 5.

Definition is_continuation (b : Z) : bool := between 128 b 191.

(** The code point of a multi-octet sequence when it is a valid UTF-8
    encoding: continuation octets in range, shortest form, no surrogate,
    at most 0x10FFFF. *)
Definition utf8_code_point (octets : list Z) : option Z :=
  match octets with
  | [b0; b1] =>
      let v := (b0 - 192) * 64 + (b1 - 128) in
      if is_continuation b1 && (128 <=? v) then Some v else None
  | [b0; b1; b2] =>
      let v := (b0 - 224) * 4096 + (b1 - 128) * 64 + (b2 - 128) in
      if is_continuation b1 && is_continuation b2 && (2048 <=? v)
         && negb (between 55296 v 57343)
      then Some v else None
  | [b0; b1; b2; b3] =>
      let v := (b0 - 240) * 262144 + (b1 - 128) * 4096
               + (b2 - 128) * 64 + (b3 - 128) in
      if is_continuation b1 && is_continuation b2 && is_continuation b3
         && (65536 <=? v) && (v <=? 1114111)
      then Some v else None
  | _ => None
  end.

(** The code units that the escape sequence whose first octet is [b]
    stands for, and the input left after it; [rest1] is the input after the
    escape of [b]. An octet below 128 stands for itself; otherwise its
    leading 1 bits give the length of the UTF-8 sequence. *)
Definition decode_octets (b : Z) (rest1 : jsstring)
  : option (jsstring * jsstring) :=
  match leading_ones b with
  | O => Some ([b], rest1)
  | 1%nat => None
  | S (S (S (S (S _)))) => None
  | S n =>
      match continuation n rest1 with
      | None => None
      | Some (bs, rest2) =>
          match utf8_code_point (b :: bs) with
          | None => None
          | Some v => Some (UTF16EncodeCodePoint v, rest2)
          end
      end
  end.

(** Decode, with the empty preserved set of [decodeURIComponent]. Every
    iteration consumes at least one code unit, so [fuel] bounds the number
    of iterations by the length of the input. *)
Fixpoint Decode (fuel : nat) (s : jsstring) : option jsstring :=
  match s with
  | [] => Some []
  | c :: rest =>
      match fuel with
      | O => None
      | S fuel' =>
          if c =? 37 then
            match unescape s with
            | None => None
            | Some (b, rest1) =>
                match decode_octets b rest1 with
                | None => None
                | Some (decoded, rest2) =>
                    option_map (app decoded) (Decode fuel' rest2)
                end
            end
          else option_map (cons c) (Decode fuel' rest)
      end
  end.

Definition decodeURIComponent (s : jsstring) : option jsstring :=
  Decode (length s) s.

(** A Unicode scalar value: a code point that is not a surrogate. *)
Definition scalar (cp : Z) : Prop :=
  0 <= cp <= 1114111 /\ ~ (55296 <= cp <= 57343).

(** An octet. *)
Definition octet (b : Z) : Prop := 0 <= b < 256.

(** [String.prototype.isWellFormed]: no surrogate without its partner. *)
Fixpoint isWellFormed (s : jsstring) : bool :=
  match s with
  | [] => true
  | c :: rest =>
      if is_trailing_surrogate c then false
      else if is_leading_surrogate c then
        match rest with
        | [] => false
        | c2 :: rest' => is_trailing_surrogate c2 && isWellFormed rest'
        end
      else between 0 c 65535 && isWellFormed rest
  end.

End URI.

(** ** Runs of a watch, seen from outside *)

Module WatchTrace.

Import Json TSDBWatch.

(** The payload an event hands to the callback, if any. *)
Definition truthy_load (e : event) : list value :=
  match e with
  | EvLoad data => if truthy data then [data] else []
  | EvFire _ | EvError | EvTimeout | EvDestroy => []
  end.

(** The truthy payloads of the load events of a run, in order. *)
Definition truthy_loads (es : list event) : list value :=
  flat_map truthy_load es.

(** No event of the run is a call of [destroy]. *)
Definition no_destroy (es : list event) : bool :=
  forallb (fun e => match e with EvDestroy => false | _ => true end) es.



End WatchTrace.

(** ** Strings that go into a URL *)

Module UrlText.

Import URI.

Local Open Scope Z_scope.

(** A code unit [encodeURIComponent] can produce: an unescaped character or
    the percent sign. *)
Definition url_safe (c : Z) : bool := unescaped c || (c =? 37).

(** A UTF-16 code unit. *)
Definition code_unit (c : Z) : Prop := 0 <= c <= 65535.

(** A code unit that is not a surrogate, such as a character of a URL. *)
Definition plain_unit (c : Z) : Prop :=
  code_unit c /\ ~ (55296 <= c <= 57343).

(** The characters that separate the parts of a URL and of its query. *)
Definition separators : jsstring := units "&=#?/+ ".

End UrlText.

(** ** [TSDBClient] and the request URL of a watch *)

Module Client.

Import URI.

(** [new TSDBClient(opt_baseURL)]: the field [baseURL_]. [None] stands for a
    missing argument; like the empty string it is falsy. *)
Definition baseURL_ (opt_baseURL : option jsstring) : jsstring :=
  match opt_baseURL with
  | Some (c :: rest) => c :: rest
  | Some [] | None => units "/api"
  end.

(** The field [url_] that the constructor of [TSDBWatch] computes before it
    sends the first request; [start] is [windowSeconds.toString()]. [None]
    stands for the [URIError] of [encodeURIComponent], which the constructor
    lets through. *)
Definition url_ (baseURL expr start resolution : jsstring) : option jsstring :=
  match encodeURIComponent resolution with
  | None => None
  | Some r =>
      match encodeURIComponent expr with
      | None => None
      | Some e =>
          Some (baseURL ++ units "/get?start=-" ++ start
                  ++ units "&resolution=" ++ r ++ units "&expr=" ++ e)
      end
  end.

(** The values of [resolution] in [Console.prototype.jsapiLoaded_]. *)
Definition resolutions : list jsstring :=
  [units "full"; units "minute"; units "hour"; units "day"].

End Client.

(** ** [Console]: the expression and the URL fragment *)

Module Console.

Import URI.

(** [s.substring(1)]. *)
Definition substring1 (s : jsstring) : jsstring := tl s.

(** The expression read from [window.location.hash], as in
    [jsapiLoaded_] and [onHashChange_]. *)
Definition read_expr (hash : jsstring) : option jsstring :=
  decodeURIComponent (substring1 hash).

(** The value [jsapiLoaded_] assigns to [window.location.hash] after it has
    read the expression. *)
Definition reencoded_hash (hash : jsstring) : option jsstring :=
  match read_expr hash with
  | None => None
  | Some expr => encodeURIComponent expr
  end.

End Console.

(** * Properties of [TSDBWatch] *)

Section WatchFacts.

Import Json TSDBWatch.

Lemma filter_other_handle (h : positive) (ms : Q) :
  filter (fun p : positive * Q => negb (Pos.eqb (fst p) h)) [(h, ms)] = [].
Proof. simpl. rewrite Pos.eqb_refl. reflexivity. Qed.

Lemma new_requesting (windowSeconds : Q) : requesting (new windowSeconds).
Proof. repeat split. Qed.

Lemma retry_requesting (w : world) :
  timer_ (this w) = None ->
  retry_ w =
    mkWorld (mkWatch (refresh_ (this w))
                     (Qmin (delay_ (this w) * DELAY_MULT) MAX_DELAY)
                     (Some (next_handle w)))
            (pending w ++ [(next_handle w, delay_ (this w) * 1000)])
            (Pos.succ (next_handle w)) (inflight w) (delivered w)
            (console_log w).
Proof. intros H. unfold retry_. rewrite H. reflexivity. Qed.

Lemma onLoad_truthy (data : value) (w : world) :
  truthy data = true ->
  onLoad_ data w =
    mkWorld (mkWatch (refresh_ (this w)) MIN_DELAY (Some (next_handle w)))
            (pending w ++ [(next_handle w, refresh_ (this w) * 1000)])
            (Pos.succ (next_handle w)) (inflight w) (delivered w ++ [data])
            (console_log w).
Proof. intros H. unfold onLoad_. rewrite H. reflexivity. Qed.

Lemma onLoad_falsy (data : value) (w : world) :
  truthy data = false -> onLoad_ data w = retry_ w.
Proof. intros H. unfold onLoad_. rewrite H. reflexivity. Qed.

Lemma step_invariant (windowSeconds : Q) (w w' : world) (e : event) :
  cycle_invariant windowSeconds w -> step w e = Some w' ->
  cycle_invariant windowSeconds w'.
Proof.
  intros [Hr Hs] Hstep. destruct w as [[r d t] p n i dl cl]. simpl in Hr.
  unfold requesting, waiting, stopped in Hs. simpl in Hs.
  destruct Hs as [(Hi & Hp & Ht) | [(Hi & h & ms & Hp & Ht) | (Hi & Hp & h & Ht)]];
    subst; destruct e as [h'|data| | |]; simpl in Hstep;
    try discriminate; try (injection Hstep as <-).
  - destruct (truthy data) eqn:E.
    + rewrite onLoad_truthy by exact E. split; [reflexivity|].
      right; left. split; [reflexivity|]. simpl. eauto.
    + rewrite onLoad_falsy, retry_requesting by (auto; exact E).
      split; [reflexivity|]. right; left. split; [reflexivity|]. simpl. eauto.
  - rewrite retry_requesting by reflexivity.
    split; [reflexivity|]. right; left. split; [reflexivity|]. simpl. eauto.
  - rewrite retry_requesting by reflexivity.
    split; [reflexivity|]. right; left. split; [reflexivity|]. simpl. eauto.
  - split; [reflexivity|]. left. repeat split.
  - unfold armed in Hstep. simpl in Hstep. rewrite orb_false_r in Hstep.
    destruct (Pos.eqb_spec h h') as [->|]; [|discriminate].
    injection Hstep as <-. split; [reflexivity|]. left.
    unfold sendRequest_, clearTimeout, requesting. simpl.
    rewrite Pos.eqb_refl. repeat split.
  - split; [reflexivity|]. right; right. unfold destroy, clearTimeout. simpl.
    rewrite Pos.eqb_refl. unfold stopped. simpl. eauto.
  - split; [reflexivity|]. right; right. unfold destroy, clearTimeout, stopped.
    simpl. eauto.
Qed.

Lemma run_invariant (windowSeconds : Q) (es : list event) :
  forall w w', cycle_invariant windowSeconds w -> run w es = Some w' ->
               cycle_invariant windowSeconds w'.
Proof.
  induction es as [|e es IH]; intros w w' Hinv Hrun; simpl in Hrun.
  - congruence.
  - destruct (step w e) as [w1|] eqn:E; [|discriminate].
    eapply IH; [|exact Hrun]. eapply step_invariant; eauto.
Qed.

Lemma reachable_invariant (windowSeconds : Q) (w : world) :
  reachable_from windowSeconds w -> cycle_invariant windowSeconds w.
Proof.
  intros [es H]. eapply run_invariant; [|exact H].
  split; [reflexivity|]. left. apply new_requesting.
Qed.

Lemma inflight_requesting (windowSeconds : Q) (w : world) :
  reachable_from windowSeconds w -> (0 < inflight w)%nat -> requesting w.
Proof.
  intros H Hi. apply reachable_invariant in H.
  destruct H as [_ [H | [[H _] | [H _]]]]; [exact H | lia | lia].
Qed.

Lemma step_load_requesting (w : world) (data : value) :
  requesting w -> step w (EvLoad data) = Some (onLoad_ data (complete w)).
Proof.
  intros (Hi & Hp & Ht). simpl. rewrite Hi. reflexivity.
Qed.

(** [destroy] while the timer is armed does stop the watch: nothing is
    delivered and no timer is armed on any run that follows. *)
Lemma destroy_while_waiting (w : world) :
  waiting w ->
  forall es w', run (destroy w) es = Some w' ->
                delivered w' = delivered w /\ pending w' = [].
Proof.
  intros (Hi & h & ms & Hp & Ht) es.
  assert (Hs : stopped (destroy w) /\ delivered (destroy w) = delivered w).
  { unfold destroy, clearTimeout, stopped. rewrite Ht. simpl.
    rewrite Hp, filter_other_handle. eauto. }
  destruct Hs as [Hs Hd]. rewrite <- Hd. clear Hd.
  generalize dependent (destroy w). clear.
  induction es as [|e es IH]; intros w Hs w' Hrun; simpl in Hrun.
  - injection Hrun as <-. destruct Hs as (_ & Hp & _). auto.
  - destruct Hs as (Hi & Hp & h & Ht).
    destruct e as [h'|data| | |]; simpl in Hrun;
      unfold armed in Hrun; rewrite ?Hp, ?Hi in Hrun; simpl in Hrun;
      try discriminate.
    assert (E : destroy w = w).
    { unfold destroy, clearTimeout. rewrite Ht, Hp. destruct w; simpl in *.
      congruence. }
    rewrite E in Hrun. apply IH; [|exact Hrun]. unfold stopped. eauto.
Qed.

(** [destroy] while a request is in flight changes nothing: when the
    request then loads a truthy payload, the callback is invoked and the
    next timer is armed, as if [destroy] had not been called. *)
Lemma destroy_while_requesting (w : world) (data : value) :
  requesting w -> truthy data = true ->
  destroy w = w
  /\ exists w',
       run w [EvDestroy; EvLoad data] = Some w'
       /\ delivered w' = delivered w ++ [data]
       /\ pending w' = [(next_handle w, refresh_ (this w) * 1000)].
Proof.
  intros (Hi & Hp & Ht) Hd.
  assert (E : destroy w = w) by (unfold destroy; rewrite Ht; reflexivity).
  split; [exact E|].
  cbn [run step]. rewrite E, Hi. cbn [Nat.ltb Nat.leb].
  rewrite onLoad_truthy by exact Hd. eexists. split; [reflexivity|].
  simpl. rewrite Hp. auto.
Qed.

(** C1. A watch is created for a window of 1200 seconds and destroyed while
    its first request is in flight; the response then arrives with a truthy
    payload (an empty array). The callback is invoked with the payload and a
    new timer is armed, for 30000 ms: [destroy] cancels a timer that is
    armed, and does nothing about a request that is in flight. *)
Theorem destroy_with_request_in_flight :
  exists w,
    run (new 1200) [EvDestroy; EvLoad (JArr [])] = Some w
    /\ delivered w = [JArr []]
    /\ pending w = [(1%positive, 1200 / 40 * 1000)].
Proof. eexists. split; [reflexivity|]. split; reflexivity. Qed.

(** C4. [retry_] called while [timer_] holds a handle arms no timer and
    changes no field of the watch (it only logs), and in every state a watch
    reaches at most one timer is armed, no timer is armed while a request is
    in flight, a call of [retry_] leaves at most one timer armed, and a call
    of [retry_] while a timer is armed leaves the timers and the backoff
    delay as they are. *)
Theorem retry_guard_one_timer :
  (forall w h, timer_ (this w) = Some h ->
     retry_ w = console_log_ "Duplicate retry call" w
     /\ pending (retry_ w) = pending w
     /\ next_handle (retry_ w) = next_handle w
     /\ this (retry_ w) = this w
     /\ delay_ (this (retry_ w)) = delay_ (this w))
  /\ (forall windowSeconds w, reachable_from windowSeconds w ->
        (length (pending w) <= 1)%nat
        /\ (inflight w + length (pending w) <= 1)%nat
        /\ (length (pending (retry_ w)) <= 1)%nat
        /\ (pending w <> [] ->
            pending (retry_ w) = pending w /\ this (retry_ w) = this w)).
Proof.
  split.
  - intros w h H. unfold retry_. rewrite H. repeat split.
  - intros ws w H. apply reachable_invariant in H.
    destruct H as [_ [(Hi & Hp & Ht) | [(Hi & h & ms & Hp & Ht) | (Hi & Hp & h & Ht)]]].
    + rewrite retry_requesting by exact Ht. simpl. rewrite Hi, Hp. simpl.
      repeat split; try lia; exfalso; auto.
    + unfold retry_. rewrite Ht. simpl. rewrite Hi, Hp. simpl.
      repeat split; lia.
    + unfold retry_. rewrite Ht. simpl. rewrite Hi, Hp. simpl.
      repeat split; lia.
Qed.

Lemma retry_guard_one_timer_witness :
  (retry_ (onLoad_ (JArr []) (complete (new 1200)))
   = console_log_ "Duplicate retry call" (onLoad_ (JArr []) (complete (new 1200)))
   /\ pending (retry_ (onLoad_ (JArr []) (complete (new 1200))))
      = pending (onLoad_ (JArr []) (complete (new 1200))))
  /\ (length (pending (onLoad_ (JArr []) (complete (new 1200)))) <= 1)%nat.
Proof.
  destruct retry_guard_one_timer as [Hguard Hinv]. split.
  - destruct (Hguard (onLoad_ (JArr []) (complete (new 1200))) 1%positive)
      as (H1 & H2 & _); [reflexivity|]. split; [exact H1 | exact H2].
  - destruct (Hinv 1200 (onLoad_ (JArr []) (complete (new 1200)))) as [H _];
      [|exact H].
    exists [EvLoad (JArr [])]. reflexivity.
Defined.



(** C6. When a request in flight loads, exactly one of two things happens,
    by the truthiness of the payload. Truthy: the backoff delay is reset to
    [MIN_DELAY], the callback is invoked once, with the payload, and the one
    timer armed is armed for the refresh interval. Falsy: the callback is not
    invoked and the one timer armed is armed for the current backoff delay,
    which is then doubled up to [MAX_DELAY]. *)
Theorem load_classified_by_truthiness
  (windowSeconds : Q) (w : world) (data : value) :
  reachable_from windowSeconds w -> (0 < inflight w)%nat ->
  exists w' h,
    step w (EvLoad data) = Some w'
    /\ timer_ (this w') = Some h
    /\ if truthy data
       then delivered w' = delivered w ++ [data]
            /\ delay_ (this w') = MIN_DELAY
            /\ pending w' = [(h, refresh_ (this w) * 1000)]
       else delivered w' = delivered w
            /\ delay_ (this w') = Qmin (delay_ (this w) * DELAY_MULT) MAX_DELAY
            /\ pending w' = [(h, delay_ (this w) * 1000)].
Proof.
  intros Hreach Hin.
  pose proof (inflight_requesting _ _ Hreach Hin) as Hreq.
  pose proof (step_load_requesting w data Hreq) as Hstep.
  destruct Hreq as (Hi & Hp & Ht).
  eexists. exists (next_handle w). split; [exact Hstep|].
  destruct (truthy data) eqn:E.
  - rewrite onLoad_truthy by exact E. simpl. rewrite Hp. auto.
  - rewrite onLoad_falsy, retry_requesting by (auto; exact E).
    simpl. rewrite Hp. auto.
Qed.

Lemma load_classified_by_truthiness_witness :
  exists w' h,
    step (new 1200) (EvLoad JNull) = Some w'
    /\ timer_ (this w') = Some h
    /\ if truthy JNull
       then delivered w' = delivered (new 1200) ++ [JNull]
            /\ delay_ (this w') = MIN_DELAY
            /\ pending w' = [(h, refresh_ (this (new 1200)) * 1000)]
       else delivered w' = delivered (new 1200)
            /\ delay_ (this w')
               = Qmin (delay_ (this (new 1200)) * DELAY_MULT) MAX_DELAY
            /\ pending w' = [(h, delay_ (this (new 1200)) * 1000)].
Proof.
  apply (load_classified_by_truthiness 1200 (new 1200) JNull).
  - exists []. reflexivity.
  - simpl. lia.
Defined.

Lemma backoff_succ (k : nat) :
  Qmin (backoff k * DELAY_MULT) MAX_DELAY == backoff (S k).
Proof.
  unfold backoff, DELAY_MULT, MAX_DELAY.
  assert (Hpow : MIN_DELAY * 2 ^ Z.of_nat (S k) == MIN_DELAY * 2 ^ Z.of_nat k * 2).
  { rewrite Nat2Z.inj_succ, <- Z.add_1_r, Qpower_plus by discriminate.
    rewrite <- Qmult_assoc. reflexivity. }
  rewrite Hpow. set (a := MIN_DELAY * 2 ^ Z.of_nat k).
  destruct (Qlt_le_dec 32 a) as [Hgt | Hle].
  - assert (H32 : Qmin a 32 == 32) by (apply Q.min_r, Qlt_le_weak, Hgt).
    rewrite H32. rewrite Q.min_r by discriminate.
    rewrite Q.min_r; [reflexivity|].
    apply Qle_trans with (y := a); [apply Qlt_le_weak, Hgt|].
    rewrite <- (Qmult_1_r a) at 1. apply Qmult_le_l; [|discriminate].
    apply Qlt_trans with (y := 32); [reflexivity | exact Hgt].
  - rewrite (Q.min_l a 32) by exact Hle. reflexivity.
Qed.

Lemma backoff_ceiling (k : nat) : (6 <= k)%nat -> backoff k == MAX_DELAY.
Proof.
  induction 1 as [|k _ IH].
  - reflexivity.
  - rewrite <- backoff_succ, IH. reflexivity.
Qed.

(** The closed form lists as 0.5, 1, 2, 4, 8, 16, 32 and 32 from there on. *)
Lemma backoff_values (k : nat) :
  backoff k == nth k [1 # 2; 1; 2; 4; 8; 16; 32] 32.
Proof.
  destruct (Nat.lt_ge_cases k 7) as [Hlt | Hge].
  - do 7 (destruct k as [|k]; [reflexivity|]). lia.
  - rewrite nth_overflow by (simpl; lia). apply backoff_ceiling. lia.
Qed.

(** A failed poll waits for the current delay and then doubles it, up to
    the ceiling. *)
Lemma poll_failure (f : event) (w : world) :
  failure f = true -> requesting w ->
  exists w',
    poll f w = Some (delay_ (this w) * 1000, w')
    /\ requesting w'
    /\ delay_ (this w') = Qmin (delay_ (this w) * DELAY_MULT) MAX_DELAY.
Proof.
  intros Hf (Hi & Hp & Ht).
  assert (Hstep : step w f = Some (retry_ (complete w))).
  { destruct f as [h|data| | |]; simpl in *; try discriminate;
      rewrite Hi; simpl; try reflexivity.
    rewrite onLoad_falsy; [reflexivity|].
    destruct (truthy data); [discriminate | reflexivity]. }
  unfold poll. rewrite Hstep, retry_requesting by exact Ht. simpl.
  rewrite Hp. simpl. unfold armed. simpl. rewrite Pos.eqb_refl. simpl.
  eexists. split; [reflexivity|]. unfold requesting. simpl.
  rewrite Pos.eqb_refl, Hi. auto.
Qed.

(** A successful poll waits for the refresh interval and resets the delay. *)
Lemma poll_success (data : value) (w : world) :
  truthy data = true -> requesting w ->
  exists w',
    poll (EvLoad data) w = Some (refresh_ (this w) * 1000, w')
    /\ requesting w'
    /\ delay_ (this w') = MIN_DELAY
    /\ delivered w' = delivered w ++ [data].
Proof.
  intros Hd (Hi & Hp & Ht).
  unfold poll. simpl. rewrite Hi. simpl.
  rewrite onLoad_truthy by exact Hd. simpl.
  rewrite Hp. simpl. unfold armed. simpl. rewrite Pos.eqb_refl. simpl.
  eexists. split; [reflexivity|]. unfold requesting. simpl.
  rewrite Pos.eqb_refl, Hi. auto.
Qed.

Lemma polls_failures (fs : list event) :
  forall w j,
    requesting w -> delay_ (this w) == backoff j ->
    forallb failure fs = true ->
    exists ds w',
      polls fs w = Some (ds, w')
      /\ requesting w'
      /\ delay_ (this w') == backoff (j + length fs)
      /\ Forall2 Qeq ds (map (fun k => backoff k * 1000) (seq j (length fs))).
Proof.
  induction fs as [|f fs IH]; intros w j Hreq Hd Hfs; simpl in *.
  - exists [], w. rewrite Nat.add_0_r. auto.
  - apply andb_true_iff in Hfs. destruct Hfs as [Hf Hfs].
    destruct (poll_failure f w Hf Hreq) as (w1 & Hpoll & Hreq1 & Hd1).
    destruct (IH w1 (S j) Hreq1) as (ds & w2 & Hpolls & Hreq2 & Hd2 & Hds).
    { rewrite Hd1, Hd. apply backoff_succ. }
    { exact Hfs. }
    rewrite Hpoll, Hpolls. eexists. eexists. split; [reflexivity|].
    split; [exact Hreq2|]. split.
    + rewrite Hd2. replace (j + S (length fs))%nat with (S j + length fs)%nat by lia.
      reflexivity.
    + constructor; [rewrite Hd; reflexivity | exact Hds].
Qed.

(** C2. From a state in which a request is in flight and the delay is
    [MIN_DELAY] (as [new] leaves it), consecutive failed polls, whatever
    their kind, arm their retry timers for [backoff 0], [backoff 1], ...
    seconds, that is for 0.5, 1, 2, 4, 8, 16, 32 and then 32 seconds; if a
    poll then succeeds, the delay is [MIN_DELAY] again and the retry after
    the next failure waits for 0.5 seconds. *)
Theorem backoff_delays
  (w : world) (fs : list event) (data : value) (f : event) :
  requesting w -> delay_ (this w) == MIN_DELAY ->
  forallb failure fs = true -> truthy data = true -> failure f = true ->
  exists ds w1,
    polls fs w = Some (ds, w1)
    /\ Forall2 Qeq ds (map (fun k => backoff k * 1000) (seq 0 (length fs)))
    /\ (forall k, backoff k == nth k [1 # 2; 1; 2; 4; 8; 16; 32] 32)
    /\ exists ms w2 ms' w3,
         poll (EvLoad data) w1 = Some (ms, w2)
         /\ delay_ (this w2) = MIN_DELAY
         /\ poll f w2 = Some (ms', w3)
         /\ ms' == (1 # 2) * 1000.
Proof.
  intros Hreq Hd Hfs Hdata Hf.
  destruct (polls_failures fs w 0 Hreq) as (ds & w1 & Hpolls & Hreq1 & _ & Hds).
  { rewrite Hd. reflexivity. }
  { exact Hfs. }
  destruct (poll_success data w1 Hdata Hreq1) as (w2 & Hp2 & Hreq2 & Hd2 & _).
  destruct (poll_failure f w2 Hf Hreq2) as (w3 & Hp3 & _).
  exists ds, w1. split; [exact Hpolls|]. split; [exact Hds|].
  split; [exact backoff_values|].
  eexists. exists w2. eexists. exists w3.
  split; [exact Hp2|]. split; [exact Hd2|]. split; [exact Hp3|].
  rewrite Hd2. reflexivity.
Qed.

Lemma backoff_delays_witness :
  exists ds w1,
    polls [EvError; EvTimeout; EvLoad JNull; EvError; EvError; EvError; EvError; EvError; EvError]
          (new 1200) = Some (ds, w1)
    /\ Forall2 Qeq ds (map (fun k => backoff k * 1000) (seq 0 9))
    /\ (forall k, backoff k == nth k [1 # 2; 1; 2; 4; 8; 16; 32] 32)
    /\ exists ms w2 ms' w3,
         poll (EvLoad (JArr [])) w1 = Some (ms, w2)
         /\ delay_ (this w2) = MIN_DELAY
         /\ poll EvTimeout w2 = Some (ms', w3)
         /\ ms' == (1 # 2) * 1000.
Proof.
  apply (backoff_delays (new 1200)
           [EvError; EvTimeout; EvLoad JNull; EvError; EvError; EvError; EvError; EvError; EvError]
           (JArr []) EvTimeout).
  - apply new_requesting.
  - reflexivity.
  - reflexivity.
  - reflexivity.
  - reflexivity.
Defined.

End WatchFacts.

(** * Properties of [Chart.prototype.drawChart_] *)

Section ChartFacts.

Import Chart.

Local Open Scope nat_scope.

Lemma retained_app (l1 l2 : list series) :
  retained (l1 ++ l2) = retained l1 ++ retained l2.
Proof. apply filter_app. Qed.

Lemma retained_one_empty (ts : series) :
  (length (timestamps_values ts) =? 0) = true -> retained [ts] = [].
Proof. intros E. unfold retained. simpl. rewrite E. reflexivity. Qed.

Lemma retained_one_kept (ts : series) :
  (length (timestamps_values ts) =? 0) = false -> retained [ts] = [ts].
Proof. intros E. unfold retained. simpl. rewrite E. reflexivity. Qed.

Lemma retained_idem (data : list series) : retained (retained data) = retained data.
Proof.
  unfold retained. induction data as [|ts data IH]; simpl; auto.
  destruct (length (timestamps_values ts) =? 0) eqn:E; simpl; rewrite ?E; simpl; congruence.
Qed.

Lemma retained_nonempty (data : list series) :
  Forall (fun ts => timestamps_values ts <> []) (retained data).
Proof.
  apply Forall_forall. intros ts H. apply filter_In in H. destruct H as [_ H].
  intros E. rewrite E in H. discriminate.
Qed.


Lemma firstn_snoc (A : Type) (l : list A) (i : nat) (x : A) :
  nth_error l i = Some x -> firstn (S i) l = firstn i l ++ [x].
Proof.
  revert i. induction l as [|a l IH]; intros [|i] H; simpl in *; try discriminate.
  - congruence.
  - f_equal. apply IH. exact H.
Qed.

Lemma skipn_cons (A : Type) (l : list A) (i : nat) (x : A) :
  nth_error l i = Some x -> skipn i l = x :: skipn (S i) l.
Proof.
  revert i. induction l as [|a l IH]; intros [|i] H; simpl in *; try discriminate.
  - congruence.
  - apply IH. exact H.
Qed.

Lemma nth_error_in_range (A : Type) (l : list A) (i : nat) :
  i < length l -> exists x, nth_error l i = Some x.
Proof.
  intros H. destruct (nth_error l i) eqn:E; eauto.
  apply nth_error_None in E. lia.
Qed.

Lemma splice1_length (A : Type) (l : list A) (i : nat) :
  i < length l -> length (splice1 i l) = length l - 1.
Proof.
  intros H. unfold splice1. rewrite length_app, length_firstn, length_skipn. lia.
Qed.

Lemma splice1_firstn (A : Type) (l : list A) (i : nat) :
  i < length l -> firstn i (splice1 i l) = firstn i l.
Proof.
  intros H. unfold splice1. rewrite firstn_app, length_firstn.
  replace (i - Nat.min i (length l)) with 0 by lia.
  rewrite firstn_firstn, Nat.min_id. simpl. apply app_nil_r.
Qed.

Lemma splice1_skipn (A : Type) (l : list A) (i : nat) :
  i < length l -> skipn i (splice1 i l) = skipn (S i) l.
Proof.
  intros H. unfold splice1. rewrite skipn_app, length_firstn.
  replace (i - Nat.min i (length l)) with 0 by lia.
  rewrite skipn_all2 by (rewrite length_firstn; lia). reflexivity.
Qed.

(** What the first loop computes: the first [n] entries are filtered in
    place, and the columns of the survivors are declared from the last to
    the first. *)
Lemma columns_loop_spec (n : nat) :
  forall data dt, n <= length data ->
    columns_loop n data dt =
      Some (retained (firstn n data) ++ skipn n data,
            mkTable (columns dt ++ map number_column (rev (retained (firstn n data))))
                    (rows dt)).
Proof.
  induction n as [|i IH]; intros data dt Hn.
  - simpl. rewrite app_nil_r. destruct dt; reflexivity.
  - simpl columns_loop.
    destruct (nth_error_in_range _ data i) as [ts Hts]; [lia|].
    rewrite Hts, (firstn_snoc _ _ _ _ Hts), retained_app.
    destruct (length (timestamps_values ts) =? 0) eqn:E.
    + rewrite IH by (rewrite splice1_length; lia).
      rewrite splice1_firstn, splice1_skipn by lia.
      rewrite (retained_one_empty _ E), app_nil_r. reflexivity.
    + rewrite IH by lia. rewrite (skipn_cons _ _ _ _ Hts).
      rewrite (retained_one_kept _ E), rev_app_distr. simpl.
      rewrite <- !app_assoc. reflexivity.
Qed.

Lemma fold_addRow (A : Type) (f : A -> list cell) (l : list A) (dt : DataTable) :
  fold_left (fun t x => addRow (f x) t) l dt
  = mkTable (columns dt) (rows dt ++ map f l).
Proof.
  revert dt. induction l as [|x l IH]; intros dt; simpl.
  - rewrite app_nil_r. destruct dt; reflexivity.
  - rewrite IH. simpl. rewrite <- app_assoc. reflexivity.
Qed.

(** What the second loop computes. *)
Lemma rows_loop_spec (todo : nat) :
  forall i data dt, i + todo <= length data ->
    rows_loop todo i data dt =
      Some (mkTable (columns dt)
                    (rows dt ++ rows_of (length data) i (firstn todo (skipn i data)))).
Proof.
  induction todo as [|todo IH]; intros i data dt H.
  - simpl. rewrite app_nil_r. destruct dt; reflexivity.
  - simpl rows_loop.
    destruct (nth_error_in_range _ data i) as [ts Hts]; [lia|].
    rewrite Hts, IH by lia. rewrite fold_addRow. simpl.
    rewrite (skipn_cons _ _ _ _ Hts). simpl. rewrite <- app_assoc. reflexivity.
Qed.

(** [drawChart_] never throws on a list of series, and this is its result. *)
Lemma drawChart_spec (data : list series) :
  drawChart_ data =
    Some (retained data,
          mkTable (("date", "Timestamp")%string
                     :: map number_column (rev (retained data)))
                  (rows_of (length (retained data)) 0 (retained data))).
Proof.
  unfold drawChart_. rewrite columns_loop_spec by lia.
  rewrite firstn_all, skipn_all, app_nil_r.
  rewrite rows_loop_spec by lia. simpl. rewrite firstn_all. reflexivity.
Qed.

Lemma rows_of_length (n : nat) (l : list series) :
  forall i, length (rows_of n i l) = samples l.
Proof.
  unfold samples. induction l as [|ts l IH]; intros i; simpl; auto.
  rewrite length_app, length_map, IH. reflexivity.
Qed.




(** The labels of the value columns are those of the retained series, from
    the last one to the first one: the first loop walks the array backwards
    and declares the columns on its way. *)
Lemma drawChart_value_labels (data : list series) :
  exists dt, drawChart_ data = Some (retained data, dt)
             /\ value_labels dt = rev (map label (retained data)).
Proof.
  eexists. split; [apply drawChart_spec|].
  unfold value_labels. simpl. rewrite map_map, map_rev. reflexivity.
Qed.

(** C3. On the two series of the specification's example, [host=a] with
    samples at 100 and 200 and [host=b] with a sample at 150, the code
    labels the first value column [host=b] and the second [host=a], while
    the rows put the values of [host=a] in the first value column and those
    of [host=b] in the second: the column order is the reverse of the order
    of the retained series, and each series is drawn under the label of the
    other. *)
Theorem drawChart_labels_against_values :
  drawChart_ [host_a; host_b]
  = Some ([host_a; host_b],
          mkTable [("date", "Timestamp"); ("number", "host=b");
                   ("number", "host=a")]%string
                  [[CDate 100000; CNum 1; CNull];
                   [CDate 200000; CNum 2; CNull];
                   [CDate 150000; CNull; CNum 3]]).
Proof. reflexivity. Qed.

(** C7. A series without samples contributes no column and no row: the
    table drawn for [data] is the table drawn for [data] without its empty
    series, it has one value column per retained series and one row per
    sample. In particular, for a series A with two samples and a series B
    with none, in either order, the table has the single value column of A
    and two rows. *)
Theorem drawChart_drops_empty_series :
  (forall data, exists dt,
      drawChart_ data = Some (retained data, dt)
      /\ drawChart_ (retained data) = Some (retained data, dt)
      /\ length (value_labels dt) = length (retained data)
      /\ length (rows dt) = samples (retained data))
  /\ (forall tagsA t1 v1 t2 v2 tagsB,
        let A := mkSeries tagsA [(t1, v1); (t2, v2)] in
        let B := mkSeries tagsB [] in
        let table :=
          mkTable [("date", "Timestamp")%string; ("number"%string, label A)]
                  [[CDate (t1 * 1000); CNum v1]; [CDate (t2 * 1000); CNum v2]] in
        drawChart_ [A; B] = Some ([A], table)
        /\ drawChart_ [B; A] = Some ([A], table)
        /\ value_labels table = [label A]
        /\ length (rows table) = 2).
Proof.
  split.
  - intros data. eexists. split; [apply drawChart_spec|].
    split; [rewrite drawChart_spec, retained_idem; reflexivity|].
    split.
    + unfold value_labels. simpl. rewrite !length_map, length_rev. reflexivity.
    + simpl. apply rows_of_length.
  - intros. repeat split.
Qed.


(** C10. [drawChart_] changes the array it is given: when [data] holds a
    series without samples, the array the call leaves behind is [data]
    without its empty series, so that series is gone from it and the array
    is shorter than it was. *)
Theorem drawChart_splices_input (data : list series) (ts : series) :
  In ts data -> timestamps_values ts = [] ->
  exists dt,
    drawChart_ data = Some (retained data, dt)
    /\ (forall ts', In ts' (retained data)
                    <-> In ts' data /\ timestamps_values ts' <> [])
    /\ ~ In ts (retained data)
    /\ length (retained data) < length data.
Proof.
  intros Hin Hempty. eexists. split; [apply drawChart_spec|].
  assert (Hiff : forall ts', In ts' (retained data)
                     <-> In ts' data /\ timestamps_values ts' <> []).
  { intros ts'. unfold retained. rewrite filter_In.
    destruct (timestamps_values ts'); simpl; intuition congruence. }
  split; [exact Hiff|]. split.
  - intros H. apply Hiff in H. tauto.
  - unfold retained. clear Hiff.
    induction data as [|x data IH]; simpl in *; [contradiction|].
    destruct Hin as [->|Hin].
    + rewrite Hempty. simpl.
      pose proof (filter_length_le
        (fun ts => negb (length (timestamps_values ts) =? 0)) data). lia.
    + specialize (IH Hin).
      destruct (negb (length (timestamps_values x) =? 0)); simpl; lia.
Qed.

Lemma drawChart_splices_input_witness :
  exists dt,
    drawChart_ [host_a; mkSeries [("host", "c")%string] []]
    = Some (retained [host_a; mkSeries [("host", "c")%string] []], dt)
    /\ (forall ts', In ts' (retained [host_a; mkSeries [("host", "c")%string] []])
                    <-> In ts' [host_a; mkSeries [("host", "c")%string] []]
                        /\ timestamps_values ts' <> [])
    /\ ~ In (mkSeries [("host", "c")%string] [])
            (retained [host_a; mkSeries [("host", "c")%string] []])
    /\ length (retained [host_a; mkSeries [("host", "c")%string] []])
       < length [host_a; mkSeries [("host", "c")%string] []].
Proof.
  apply (drawChart_splices_input
           [host_a; mkSeries [("host", "c")%string] []]
           (mkSeries [("host", "c")%string] [])).
  - simpl. right. left. reflexivity.
  - reflexivity.
Defined.

End ChartFacts.

(** * The round trip of [encodeURIComponent] and [decodeURIComponent] *)

Section UriFacts.

Import URI.

Local Open Scope Z_scope.

(** Case analysis on every integer comparison of the goal. *)
Ltac compare_all :=
  repeat match goal with
    | |- context [?a <=? ?b] => destruct (Z.leb_spec a b)
    | |- context [?a <? ?b] => destruct (Z.ltb_spec a b)
    | |- context [?a =? ?b] => destruct (Z.eqb_spec a b)
    end;
  cbn [andb orb negb].

Ltac divmod := Z.div_mod_to_equations; lia.

Lemma hexval_hexdigit (d : Z) : 0 <= d < 16 -> hexval (hexdigit d) = Some d.
Proof.
  intros H. unfold hexval, hexdigit, between.
  destruct (Z.ltb_spec d 10); compare_all; try (exfalso; lia); f_equal; lia.
Qed.

Lemma unescape_escape (b : Z) (rest : jsstring) :
  octet b -> unescape (escape b ++ rest) = Some (b, rest).
Proof.
  unfold octet. intros H.
  change (escape b ++ rest)
    with (37 :: hexdigit (b / 16) :: hexdigit (b mod 16) :: rest).
  unfold unescape. change (37 =? 37) with true. cbv iota.
  rewrite !hexval_hexdigit by divmod.
  replace (16 * (b / 16) + b mod 16) with b by divmod. reflexivity.
Qed.

Lemma continuation_escaped (bs : list Z) (rest : jsstring) :
  Forall octet bs ->
  continuation (length bs) (flat_map escape bs ++ rest) = Some (bs, rest).
Proof.
  induction 1 as [|b bs Hb _ IH]; [reflexivity|].
  cbn [length flat_map continuation]. rewrite <- app_assoc.
  rewrite unescape_escape by exact Hb. rewrite IH. reflexivity.
Qed.

Lemma unescaped_not_percent (c : Z) : unescaped c = true -> (c =? 37) = false.
Proof.
  intros H. destruct (Z.eqb_spec c 37) as [->|]; [discriminate H | reflexivity].
Qed.

Lemma is_continuation_low6 (x : Z) : is_continuation (128 + x mod 64) = true.
Proof.
  unfold is_continuation, between.
  compare_all; try reflexivity; exfalso; divmod.
Qed.

Lemma utf8_octets (cp : Z) : scalar cp -> Forall octet (utf8 cp).
Proof.
  intros [Hr Hs]. unfold utf8, octet.
  destruct (Z.ltb_spec cp 128); [|destruct (Z.ltb_spec cp 2048);
    [|destruct (Z.ltb_spec cp 65536)]];
    repeat constructor; divmod.
Qed.

(** The escaped UTF-8 octets of a scalar value decode to its UTF-16 code
    units. *)
Lemma decode_octets_utf8 (cp : Z) (rest : jsstring) :
  scalar cp ->
  exists b bs,
    utf8 cp = b :: bs
    /\ decode_octets b (flat_map escape bs ++ rest)
       = Some (UTF16EncodeCodePoint cp, rest).
Proof.
  intros Hcp. pose proof (utf8_octets cp Hcp) as Hoct.
  destruct Hcp as [Hr Hs]. unfold utf8 in *.
  destruct (Z.ltb_spec cp 128) as [H1|H1];
    [|destruct (Z.ltb_spec cp 2048) as [H2|H2];
      [|destruct (Z.ltb_spec cp 65536) as [H3|H3]]];
    eexists; eexists; (split; [reflexivity|]);
    apply Forall_inv_tail in Hoct; rename Hoct into Htail.
  - unfold decode_octets, leading_ones, UTF16EncodeCodePoint.
    destruct (Z.ltb_spec cp 128); [|lia].
    destruct (Z.ltb_spec cp 65536); [|lia]. reflexivity.
  - (* two octets *)
    assert (Hlead : leading_ones (192 + cp / 64) = 2%nat).
    { unfold leading_ones. compare_all; try reflexivity; exfalso; divmod. }
    unfold decode_octets. rewrite Hlead. cbv iota.
    pose proof (continuation_escaped _ rest Htail) as Hc. simpl length in Hc.
    rewrite Hc. unfold utf8_code_point.
    replace ((192 + cp / 64 - 192) * 64 + (128 + cp mod 64 - 128)) with cp
      by divmod.
    rewrite is_continuation_low6.
    destruct (Z.leb_spec 128 cp); [|lia]. cbn [andb].
    unfold UTF16EncodeCodePoint. destruct (Z.ltb_spec cp 65536); [|lia].
    reflexivity.
  - (* three octets *)
    assert (Hlead : leading_ones (224 + cp / 4096) = 3%nat).
    { unfold leading_ones. compare_all; try reflexivity; exfalso; divmod. }
    unfold decode_octets. rewrite Hlead. cbv iota.
    pose proof (continuation_escaped _ rest Htail) as Hc. simpl length in Hc.
    rewrite Hc. unfold utf8_code_point.
    replace ((224 + cp / 4096 - 224) * 4096 + (128 + (cp / 64) mod 64 - 128) * 64
             + (128 + cp mod 64 - 128)) with cp by divmod.
    rewrite !is_continuation_low6. unfold between.
    destruct (Z.leb_spec 2048 cp); [|lia].
    destruct (Z.leb_spec 55296 cp); destruct (Z.leb_spec cp 57343);
      try (exfalso; lia); cbn [andb negb];
      unfold UTF16EncodeCodePoint; (destruct (Z.ltb_spec cp 65536); [|lia]);
      reflexivity.
  - (* four octets *)
    assert (Hlead : leading_ones (240 + cp / 262144) = 4%nat).
    { unfold leading_ones. compare_all; try reflexivity; exfalso; divmod. }
    unfold decode_octets. rewrite Hlead. cbv iota.
    pose proof (continuation_escaped _ rest Htail) as Hc. simpl length in Hc.
    rewrite Hc. unfold utf8_code_point.
    replace ((240 + cp / 262144 - 240) * 262144
             + (128 + (cp / 4096) mod 64 - 128) * 4096
             + (128 + (cp / 64) mod 64 - 128) * 64
             + (128 + cp mod 64 - 128)) with cp by divmod.
    rewrite !is_continuation_low6.
    destruct (Z.leb_spec 65536 cp); [|lia].
    destruct (Z.leb_spec cp 1114111); [|lia]. reflexivity.
Qed.

Lemma Decode_nil (fuel : nat) : Decode fuel [] = Some [].
Proof. destruct fuel; reflexivity. Qed.

Lemma Decode_unescaped (c : Z) (fuel : nat) (rest : jsstring) :
  unescaped c = true ->
  Decode (S fuel) (c :: rest) = option_map (cons c) (Decode fuel rest).
Proof.
  intros H. cbn [Decode]. rewrite (unescaped_not_percent c H). reflexivity.
Qed.

Lemma Decode_percent (fuel : nat) (rest0 : jsstring) :
  Decode (S fuel) (37 :: rest0)
  = match unescape (37 :: rest0) with
    | None => None
    | Some (b, rest1) =>
        match decode_octets b rest1 with
        | None => None
        | Some (decoded, rest2) => option_map (app decoded) (Decode fuel rest2)
        end
    end.
Proof. reflexivity. Qed.

Lemma Decode_escaped (cp : Z) (fuel : nat) (rest : jsstring) :
  scalar cp ->
  Decode (S fuel) (flat_map escape (utf8 cp) ++ rest)
  = option_map (app (UTF16EncodeCodePoint cp)) (Decode fuel rest).
Proof.
  intros Hcp. pose proof (utf8_octets cp Hcp) as Hoct.
  destruct (decode_octets_utf8 cp rest Hcp) as (b & bs & Hu & Hd).
  rewrite Hu in *. apply Forall_inv in Hoct.
  cbn [flat_map]. rewrite <- app_assoc.
  pose proof (unescape_escape b (flat_map escape bs ++ rest) Hoct) as Hun.
  change (escape b ++ flat_map escape bs ++ rest)
    with (37 :: hexdigit (b / 16) :: hexdigit (b mod 16)
             :: flat_map escape bs ++ rest) in *.
  rewrite Decode_percent, Hun, Hd. reflexivity.
Qed.

Lemma escaped_length (cp : Z) (rest : jsstring) :
  (S (length rest) <= length (flat_map escape (utf8 cp) ++ rest))%nat.
Proof.
  rewrite length_app. unfold utf8.
  destruct (cp <? 128); [|destruct (cp <? 2048); [|destruct (cp <? 65536)]];
    cbn [flat_map escape app length]; lia.
Qed.

Lemma unescaped_ascii (c : Z) : unescaped c = true -> 0 <= c < 128.
Proof.
  unfold unescaped. intros H.
  change (units "-_.!~*'()") with [45; 95; 46; 33; 126; 42; 39; 40; 41] in H.
  cbn [existsb] in H. unfold between in H.
  repeat (apply orb_true_iff in H; destruct H as [H|H]);
    try (apply andb_true_iff in H; destruct H as [H H'];
         apply Z.leb_le in H, H'; lia);
    try (apply Z.eqb_eq in H; lia).
  discriminate H.
Qed.

Lemma surrogate_pair (c1 c2 : Z) :
  is_leading_surrogate c1 = true -> is_trailing_surrogate c2 = true ->
  scalar (pair_to_code_point c1 c2)
  /\ UTF16EncodeCodePoint (pair_to_code_point c1 c2) = [c1; c2].
Proof.
  unfold is_leading_surrogate, is_trailing_surrogate, between.
  intros H1 H2. apply andb_true_iff in H1, H2.
  destruct H1 as [H1 H1']. destruct H2 as [H2 H2'].
  apply Z.leb_le in H1, H1', H2, H2'.
  unfold scalar, pair_to_code_point, UTF16EncodeCodePoint. split; [lia|].
  destruct (Z.ltb_spec ((c1 - 55296) * 1024 + (c2 - 56320) + 65536) 65536);
    [lia|].
  f_equal; [|f_equal]; divmod.
Qed.

Lemma code_unit_scalar (c : Z) :
  is_trailing_surrogate c = false -> is_leading_surrogate c = false ->
  between 0 c 65535 = true ->
  scalar c /\ UTF16EncodeCodePoint c = [c].
Proof.
  unfold is_leading_surrogate, is_trailing_surrogate, between, scalar,
    UTF16EncodeCodePoint.
  intros Ht Hl Hr. apply andb_true_iff in Hr. destruct Hr as [Hr Hr'].
  apply Z.leb_le in Hr, Hr'. apply andb_false_iff in Ht, Hl.
  rewrite !Z.leb_gt in Ht, Hl.
  destruct (Z.ltb_spec c 65536); [|lia]. split; [lia | reflexivity].
Qed.

(** Encoding a well-formed string succeeds, and decoding the result, with
    fuel for one iteration per code unit, gives the string back. *)
Lemma round_trip_fuel (n : nat) :
  forall s, (length s <= n)%nat -> isWellFormed s = true ->
    exists e, encodeURIComponent s = Some e
              /\ forall fuel, (length e <= fuel)%nat -> Decode fuel e = Some s.
Proof.
  induction n as [|n IH]; intros s Hlen Hwf.
  - destruct s; [|simpl in Hlen; lia].
    exists []. split; [reflexivity|]. intros. apply Decode_nil.
  - destruct s as [|c rest].
    { exists []. split; [reflexivity|]. intros. apply Decode_nil. }
    cbn [length] in Hlen. cbn [isWellFormed] in Hwf. cbn [encodeURIComponent].
    destruct (is_trailing_surrogate c) eqn:Etrail; [discriminate|].
    destruct (is_leading_surrogate c) eqn:Elead.
    + (* a surrogate pair *)
      destruct rest as [|c2 rest']; [discriminate|].
      apply andb_true_iff in Hwf. destruct Hwf as [Etrail2 Hwf].
      cbn [length] in Hlen.
      destruct (IH rest') as (e' & He' & Hdec); [lia | exact Hwf |].
      destruct (surrogate_pair c c2 Elead Etrail2) as [Hsc Hunits].
      destruct (unescaped c) eqn:Eun.
      { apply unescaped_ascii in Eun.
        unfold is_leading_surrogate, between in Elead.
        apply andb_true_iff in Elead. destruct Elead as [Elead _].
        apply Z.leb_le in Elead. lia. }
      rewrite Etrail2, He'. cbn [option_map].
      eexists. split; [reflexivity|]. intros fuel Hfuel.
      pose proof (escaped_length (pair_to_code_point c c2) e') as Hl.
      destruct fuel as [|fuel]; [lia|].
      rewrite Decode_escaped by exact Hsc.
      rewrite Hdec by lia. rewrite Hunits. reflexivity.
    + (* a code unit that is a code point *)
      apply andb_true_iff in Hwf. destruct Hwf as [Hrange Hwf].
      destruct (IH rest) as (e' & He' & Hdec); [lia | exact Hwf |].
      destruct (code_unit_scalar c Etrail Elead Hrange) as [Hsc Hunits].
      rewrite He'. cbn [option_map].
      destruct (unescaped c) eqn:Eun.
      * eexists. split; [reflexivity|]. intros fuel Hfuel.
        cbn [length] in Hfuel. destruct fuel as [|fuel]; [lia|].
        rewrite Decode_unescaped by exact Eun.
        rewrite Hdec by lia. reflexivity.
      * eexists. split; [reflexivity|]. intros fuel Hfuel.
        pose proof (escaped_length c e') as Hl.
        destruct fuel as [|fuel]; [lia|].
        rewrite Decode_escaped by exact Hsc.
        rewrite Hdec by lia. rewrite Hunits. reflexivity.
Qed.

(** C9. For every well-formed string (no surrogate code unit without its
    partner), whatever reserved characters it holds, [encodeURIComponent]
    returns a string and [decodeURIComponent] of that string returns the
    original. *)
Theorem uri_component_round_trip (s : jsstring) :
  isWellFormed s = true ->
  exists e, encodeURIComponent s = Some e /\ decodeURIComponent e = Some s.
Proof.
  intros Hwf.
  destruct (round_trip_fuel (length s) s (Nat.le_refl _) Hwf) as (e & He & Hdec).
  exists e. split; [exact He|]. apply Hdec. apply Nat.le_refl.
Qed.

Lemma uri_component_round_trip_witness :
  exists e, encodeURIComponent (units "a&b=c d") = Some e
            /\ decodeURIComponent e = Some (units "a&b=c d").
Proof.
  apply (uri_component_round_trip (units "a&b=c d")). reflexivity.
Defined.

(** The string made of the single code unit 0xD800, a leading surrogate
    without its partner, has no round trip: [encodeURIComponent] throws. *)
Lemma uri_component_lone_surrogate :
  ~ (exists e, encodeURIComponent [55296] = Some e
               /\ decodeURIComponent e = Some [55296]).
Proof. intros (e & He & _). discriminate He. Qed.

(** The expression [a&b=c d] is encoded as [a%26b%3Dc%20d]. *)
Lemma encodeURIComponent_reserved :
  encodeURIComponent (units "a&b=c d") = Some (units "a%26b%3Dc%20d").
Proof. reflexivity. Qed.

End UriFacts.

(** * Further properties of [TSDBWatch] *)

Section WatchTraceFacts.

Import Json TSDBWatch WatchTrace.

Lemma retry_delivered (w : world) : delivered (retry_ w) = delivered w.
Proof.
  unfold retry_. destruct (timer_ (this w)); reflexivity.
Qed.

Lemma step_delivered (w w' : world) (e : event) :
  step w e = Some w' -> delivered w' = delivered w ++ truthy_load e.
Proof.
  destruct e as [h|data| | |]; simpl; intros H.
  - destruct (armed h w); [|discriminate]. injection H as <-.
    simpl. rewrite app_nil_r. reflexivity.
  - destruct (0 <? inflight w)%nat; [|discriminate]. injection H as <-.
    destruct (truthy data) eqn:E.
    + rewrite onLoad_truthy by exact E. reflexivity.
    + rewrite onLoad_falsy by exact E. rewrite retry_delivered.
      simpl. rewrite app_nil_r. reflexivity.
  - destruct (0 <? inflight w)%nat; [|discriminate]. injection H as <-.
    rewrite retry_delivered. simpl. rewrite app_nil_r. reflexivity.
  - destruct (0 <? inflight w)%nat; [|discriminate]. injection H as <-.
    rewrite retry_delivered. simpl. rewrite app_nil_r. reflexivity.
  - injection H as <-. unfold destroy.
    destruct (timer_ (this w)); simpl; rewrite app_nil_r; reflexivity.
Qed.

Lemma run_delivered (es : list event) :
  forall w w', run w es = Some w' ->
               delivered w' = delivered w ++ truthy_loads es.
Proof.
  induction es as [|e es IH]; intros w w' H; simpl in H.
  - injection H as <-. simpl. rewrite app_nil_r. reflexivity.
  - destruct (step w e) as [w1|] eqn:E; [|discriminate].
    rewrite (IH _ _ H), (step_delivered _ _ _ E).
    unfold truthy_loads. simpl. rewrite app_assoc. reflexivity.
Qed.

(** X1. Along any run of a watch, destroyed or not, the callback is invoked
    exactly once for each load event with a truthy payload, with that
    payload and in the order of arrival, and is never invoked otherwise. *)
Theorem callback_log_is_truthy_loads
  (windowSeconds : Q) (es : list event) (w : world) :
  run (new windowSeconds) es = Some w ->
  delivered w = truthy_loads es
  /\ Forall (fun data => truthy data = true) (delivered w).
Proof.
  intros H. apply run_delivered in H. simpl in H. split; [exact H|].
  rewrite H. clear. unfold truthy_loads.
  induction es as [|e es IH]; simpl; [constructor|].
  apply Forall_app. split; [|exact IH].
  destruct e as [h|data| | |]; simpl; try constructor.
  destruct (truthy data) eqn:E; repeat constructor. exact E.
Qed.

Lemma callback_log_is_truthy_loads_witness :
  delivered (onLoad_ (JArr []) (complete (new 1200)))
  = truthy_loads [EvLoad (JArr [])]
  /\ Forall (fun data => truthy data = true)
            (delivered (onLoad_ (JArr []) (complete (new 1200)))).
Proof.
  apply (callback_log_is_truthy_loads 1200 [EvLoad (JArr [])]). reflexivity.
Defined.









Lemma step_console (windowSeconds : Q) (w w' : world) (e : event) :
  cycle_invariant windowSeconds w -> step w e = Some w' ->
  console_log w' = console_log w.
Proof.
  intros [_ Hs] H.
  assert (Hreq : (0 <? inflight w)%nat = true ->
                 timer_ (this (complete w)) = None).
  { intros Hi. apply Nat.ltb_lt in Hi.
    destruct Hs as [(_ & _ & Ht) | [(Hz & _) | (Hz & _)]]; [exact Ht | lia | lia]. }
  destruct e as [h|data| | |]; simpl in H.
  - destruct (armed h w); [|discriminate]. injection H as <-. reflexivity.
  - destruct (0 <? inflight w)%nat; [|discriminate]. injection H as <-.
    destruct (truthy data) eqn:E.
    + rewrite onLoad_truthy by exact E. reflexivity.
    + rewrite onLoad_falsy, retry_requesting by auto. reflexivity.
  - destruct (0 <? inflight w)%nat; [|discriminate]. injection H as <-.
    rewrite retry_requesting by auto. reflexivity.
  - destruct (0 <? inflight w)%nat; [|discriminate]. injection H as <-.
    rewrite retry_requesting by auto. reflexivity.
  - injection H as <-. unfold destroy. destruct (timer_ (this w)); reflexivity.
Qed.

Lemma run_console (windowSeconds : Q) (es : list event) :
  forall w0 w, run w0 es = Some w -> cycle_invariant windowSeconds w0 ->
               console_log w = console_log w0.
Proof.
  induction es as [|e es IH]; intros w0 w Hrun H0; simpl in Hrun.
  - injection Hrun as <-. reflexivity.
  - destruct (step w0 e) as [w1|] eqn:E; [|discriminate].
    rewrite <- (step_console _ _ _ _ H0 E).
    apply IH; [exact Hrun|]. eapply step_invariant; eauto.
Qed.

(** X3. Along any run of a watch nothing is written to the console: with
    one completion event per request, [retry_] is never called while
    [timer_] holds a handle, so its duplicate-call branch is never taken. *)
Theorem duplicate_retry_never_logged (windowSeconds : Q) (w : world) :
  reachable_from windowSeconds w -> console_log w = [].
Proof.
  intros [es Hrun].
  apply (run_console windowSeconds es _ _) in Hrun; [exact Hrun|].
  split; [reflexivity|]. left. apply new_requesting.
Qed.

Lemma duplicate_retry_never_logged_witness :
  console_log (retry_ (complete (new 1200))) = [].
Proof.
  apply (duplicate_retry_never_logged 1200). exists [EvTimeout]. reflexivity.
Defined.

Lemma filter_twice (A : Type) (f : A -> bool) (l : list A) :
  filter f (filter f l) = filter f l.
Proof.
  induction l as [|a l IH]; simpl; [reflexivity|].
  destruct (f a) eqn:E; simpl; rewrite ?E, IH; reflexivity.
Qed.

Lemma destroy_frame (w : world) :
  destroy (destroy w) = destroy w
  /\ this (destroy w) = this w
  /\ inflight (destroy w) = inflight w
  /\ delivered (destroy w) = delivered w
  /\ console_log (destroy w) = console_log w
  /\ incl (pending (destroy w)) (pending w).
Proof.
  unfold destroy. destruct (timer_ (this w)) as [h|] eqn:E.
  - cbn [clearTimeout this]. rewrite E. unfold clearTimeout. cbn.
    rewrite filter_twice. repeat split. apply incl_filter.
  - rewrite E. repeat split. apply incl_refl.
Qed.

(** X4. [destroy] is idempotent, and all it can change is the set of armed
    timers, which it can only shrink: the fields of the watch, the requests
    in flight, the callback log and the console are left as they are. *)
Theorem destroy_idempotent (w : world) :
  destroy (destroy w) = destroy w
  /\ this (destroy w) = this w
  /\ inflight (destroy w) = inflight w
  /\ delivered (destroy w) = delivered w
  /\ console_log (destroy w) = console_log w
  /\ incl (pending (destroy w)) (pending w).
Proof.
  unfold destroy. destruct (timer_ (this w)) as [h|] eqn:E.
  - cbn [clearTimeout this]. rewrite E. unfold clearTimeout. cbn.
    rewrite filter_twice. repeat split. apply incl_filter.
  - rewrite E. repeat split. apply incl_refl.
Qed.

(** X5. When [destroy] is called while the timer of the next request is
    armed, the watch is stopped for good: on every run that follows, the
    callback is not invoked and no timer is armed. *)
Theorem destroy_while_timer_armed
  (windowSeconds : Q) (w : world) (es : list event) (w' : world) :
  reachable_from windowSeconds w -> pending w <> [] ->
  run (destroy w) es = Some w' ->
  delivered w' = delivered w /\ pending w' = [] /\ inflight w' = 0%nat.
Proof.
  intros Hreach Hp Hrun.
  assert (Hw : waiting w).
  { destruct (reachable_invariant _ _ Hreach) as [_ [(_ & H & _) | [H | (_ & H & _)]]];
      [contradiction | exact H | contradiction]. }
  destruct (destroy_while_waiting w Hw es w' Hrun) as [Hd Hp'].
  split; [exact Hd|]. split; [exact Hp'|].
  assert (Hreach' : reachable_from windowSeconds w').
  { destruct Hreach as [es0 H0]. exists (es0 ++ EvDestroy :: es).
    clear - H0 Hrun. revert H0. generalize (new windowSeconds).
    induction es0 as [|e es0 IH]; intros w0 H0; simpl in *.
    - injection H0 as ->. exact Hrun.
    - destruct (step w0 e); [|discriminate]. apply IH. exact H0. }
  destruct (reachable_invariant _ _ Hreach') as [_ [(_ & _ & Ht) | [(Hi & _) | (Hi & _)]]];
    [|exact Hi | exact Hi].
  exfalso. clear - Hw Hrun Ht.
  assert (Hs : exists h, timer_ (this (destroy w)) = Some h).
  { destruct Hw as (_ & h & ms & _ & Hh). exists h.
    destruct (destroy_frame w) as (_ & Hthis & _). rewrite Hthis. exact Hh. }
  assert (Hp0 : pending (destroy w) = [] /\ inflight (destroy w) = 0%nat).
  { destruct Hw as (Hi & h & ms & Hp & Hh). unfold destroy. rewrite Hh.
    unfold clearTimeout. cbn. rewrite Hp. cbn. rewrite Pos.eqb_refl. auto. }
  revert Hrun Hs Hp0. generalize (destroy w).
  induction es as [|e es IH]; intros w0 Hrun [h Hh] [Hp Hi]; simpl in Hrun.
  - injection Hrun as <-. congruence.
  - destruct e as [h'|data| | |]; simpl in Hrun; unfold armed in Hrun;
      rewrite ?Hp, ?Hi in Hrun; simpl in Hrun; try discriminate.
    destruct (destroy_frame w0) as (_ & Hthis & Hin & _ & _ & Hincl).
    apply (IH (destroy w0) Hrun).
    + exists h. rewrite Hthis. exact Hh.
    + split; [|congruence]. rewrite Hp in Hincl.
      destruct (pending (destroy w0)) as [|p l]; [reflexivity|].
      exfalso. apply (Hincl p). left. reflexivity.
Qed.

Lemma destroy_while_timer_armed_witness :
  delivered (destroy (destroy (onLoad_ (JArr []) (complete (new 1200)))))
  = delivered (onLoad_ (JArr []) (complete (new 1200)))
  /\ pending (destroy (destroy (onLoad_ (JArr []) (complete (new 1200))))) = []
  /\ inflight (destroy (destroy (onLoad_ (JArr []) (complete (new 1200)))))
     = 0%nat.
Proof.
  apply (destroy_while_timer_armed 1200
           (onLoad_ (JArr []) (complete (new 1200))) [EvDestroy]).
  - exists [EvLoad (JArr [])]. reflexivity.
  - discriminate.
  - reflexivity.
Defined.

Lemma step_alive (w w' : world) (e : event) :
  requesting w \/ waiting w -> e <> EvDestroy -> step w e = Some w' ->
  requesting w' \/ waiting w'.
Proof.
  intros Hs He Hstep. destruct w as [[r d t] p n i dl cl].
  unfold requesting, waiting in Hs. simpl in Hs.
  destruct Hs as [(Hi & Hp & Ht) | (Hi & h & ms & Hp & Ht)];
    subst; destruct e as [h'|data| | |]; simpl in Hstep;
    try discriminate; try congruence; try (injection Hstep as <-).
  - destruct (truthy data) eqn:E.
    + rewrite onLoad_truthy by exact E.
      right. split; [reflexivity|]. simpl. eauto.
    + rewrite onLoad_falsy, retry_requesting by (auto; exact E).
      right. split; [reflexivity|]. simpl. eauto.
  - rewrite retry_requesting by reflexivity.
    right. split; [reflexivity|]. simpl. eauto.
  - rewrite retry_requesting by reflexivity.
    right. split; [reflexivity|]. simpl. eauto.
  - unfold armed in Hstep. simpl in Hstep. rewrite orb_false_r in Hstep.
    destruct (Pos.eqb_spec h h') as [->|]; [|discriminate].
    injection Hstep as <-. left.
    unfold sendRequest_, clearTimeout, requesting. simpl.
    rewrite Pos.eqb_refl. repeat split.
Qed.

(** X6. A watch that is not destroyed never stops polling: after any run
    without a call of [destroy], either a request is in flight or the timer
    of the next request is armed, so there is always a next event, however
    many polls have failed. *)
Theorem polling_never_stops
  (windowSeconds : Q) (es : list event) (w : world) :
  run (new windowSeconds) es = Some w -> no_destroy es = true ->
  (requesting w \/ waiting w)
  /\ exists e w', e <> EvDestroy /\ step w e = Some w'.
Proof.
  intros Hrun Hnd.
  assert (H : requesting w \/ waiting w).
  { revert Hrun Hnd.
    assert (H0 : requesting (new windowSeconds) \/ waiting (new windowSeconds))
      by (left; apply new_requesting).
    revert H0. generalize (new windowSeconds).
    induction es as [|e es IH]; intros w0 H0 Hrun Hnd; simpl in *.
    - injection Hrun as <-. exact H0.
    - apply andb_true_iff in Hnd. destruct Hnd as [He Hnd].
      destruct (step w0 e) as [w1|] eqn:E; [|discriminate].
      apply (IH w1); [|exact Hrun | exact Hnd].
      eapply step_alive; [exact H0| |exact E].
      intros ->. discriminate. }
  split; [exact H|].
  destruct H as [(Hi & Hp & Ht) | (Hi & h & ms & Hp & Ht)].
  - exists EvError. eexists. split; [discriminate|].
    simpl. rewrite Hi. reflexivity.
  - exists (EvFire h). eexists. split; [discriminate|].
    simpl. unfold armed. rewrite Hp. simpl. rewrite Pos.eqb_refl. reflexivity.
Qed.

Lemma polling_never_stops_witness :
  (requesting (retry_ (complete (new 1200)))
   \/ waiting (retry_ (complete (new 1200))))
  /\ exists e w', e <> EvDestroy
                  /\ step (retry_ (complete (new 1200))) e = Some w'.
Proof.
  apply (polling_never_stops 1200 [EvError]); reflexivity.
Defined.

End WatchTraceFacts.

(** * Further properties of [drawChart_] *)

Section ChartTableFacts.

Import Chart.

Local Open Scope nat_scope.

Lemma make_row_length (i n : nat) (tv : Z * Q) :
  i < n -> length (make_row i n tv) = S n.
Proof.
  intros H. unfold make_row. cbn [length app].
  rewrite length_app, repeat_length. cbn [length app].
  rewrite repeat_length. lia.
Qed.

Lemma rows_of_width (n : nat) (l : list series) :
  forall i, i + length l <= n ->
    Forall (fun row => length row = S n) (rows_of n i l).
Proof.
  induction l as [|ts l IH]; intros i H; simpl in *; [constructor|].
  apply Forall_app. split; [|apply IH; lia].
  apply Forall_forall. intros row Hin. apply in_map_iff in Hin.
  destruct Hin as (tv & <- & _). apply make_row_length. lia.
Qed.

(** X7. [drawChart_] never reads past the end of the array it is splicing,
    and the table it builds is rectangular: every row handed to [addRow]
    has exactly one cell per declared column. *)
Theorem drawChart_table_rectangular (data : list series) :
  exists data' dt,
    drawChart_ data = Some (data', dt)
    /\ length (columns dt) = S (length data')
    /\ Forall (fun row => length row = length (columns dt)) (rows dt).
Proof.
  eexists. eexists. split; [apply drawChart_spec|]. cbn [columns rows].
  cbn [length]. rewrite length_map, length_rev. split; [reflexivity|].
  apply rows_of_width. simpl. lia.
Qed.

Lemma retained_all (data : list series) :
  Forall (fun ts => timestamps_values ts <> []) data -> retained data = data.
Proof.
  unfold retained. induction 1 as [|ts data Hts _ IH]; simpl; [reflexivity|].
  destruct (timestamps_values ts); [contradiction|]. simpl. congruence.
Qed.

(** X8. When every series has at least one sample, [drawChart_] leaves the
    array it is given as it is. *)
Theorem drawChart_keeps_full_input (data : list series) :
  Forall (fun ts => timestamps_values ts <> []) data ->
  exists dt, drawChart_ data = Some (data, dt).
Proof.
  intros H. eexists. rewrite drawChart_spec, (retained_all data H).
  reflexivity.
Qed.

Lemma drawChart_keeps_full_input_witness :
  exists dt, drawChart_ [host_a; host_b] = Some ([host_a; host_b], dt).
Proof.
  apply (drawChart_keeps_full_input [host_a; host_b]).
  repeat constructor; discriminate.
Defined.

Lemma rows_of_dates (n : nat) (l : list series) :
  forall i,
    map (hd CNull) (rows_of n i l)
    = map (fun tv => CDate (fst tv * 1000)) (flat_map timestamps_values l).
Proof.
  induction l as [|ts l IH]; intros i; simpl; [reflexivity|].
  rewrite !map_app, IH, map_map. reflexivity.
Qed.

Lemma flat_map_retained (data : list series) :
  flat_map timestamps_values (retained data) = flat_map timestamps_values data.
Proof.
  unfold retained. induction data as [|ts data IH]; simpl; [reflexivity|].
  destruct (timestamps_values ts) eqn:E; simpl; rewrite ?E, IH; reflexivity.
Qed.

(** X9. The time column of the table is the timestamps of all the samples
    of the input, times 1000, series after series and in the order of the
    samples: the rows are not sorted by time across series. *)
Theorem drawChart_time_column (data : list series) :
  exists data' dt,
    drawChart_ data = Some (data', dt)
    /\ map (hd CNull) (rows dt)
       = map (fun tv => CDate (fst tv * 1000))
             (flat_map timestamps_values data).
Proof.
  eexists. eexists. split; [apply drawChart_spec|]. cbn [rows].
  rewrite rows_of_dates. f_equal. apply flat_map_retained.
Qed.

Lemma retained_none (data : list series) :
  Forall (fun ts => timestamps_values ts = []) data -> retained data = [].
Proof.
  unfold retained. induction 1 as [|ts data Hts _ IH]; simpl; [reflexivity|].
  rewrite Hts. simpl. exact IH.
Qed.

(** X10. When no series has a sample (in particular on the empty array),
    [drawChart_] empties the array and draws a table with the timestamp
    column alone and no row. *)
Theorem drawChart_without_samples (data : list series) :
  Forall (fun ts => timestamps_values ts = []) data ->
  drawChart_ data
  = Some ([], mkTable [("date", "Timestamp")%string] []).
Proof.
  intros H. rewrite drawChart_spec, (retained_none data H). reflexivity.
Qed.

Lemma drawChart_without_samples_witness :
  drawChart_ [mkSeries [("host", "a")%string] []; mkSeries [] []]
  = Some ([], mkTable [("date", "Timestamp")%string] []).
Proof.
  apply (drawChart_without_samples
           [mkSeries [("host", "a")%string] []; mkSeries [] []]).
  repeat constructor.
Defined.

End ChartTableFacts.

(** * Further properties of [encodeURIComponent] and [decodeURIComponent] *)

Section UrlTextFacts.

Import URI UrlText.

Local Open Scope Z_scope.

Ltac arith := Z.div_mod_to_equations; lia.

Lemma between_true (lo c hi : Z) : lo <= c <= hi -> between lo c hi = true.
Proof.
  intros H. unfold between. apply andb_true_iff. split; apply Z.leb_le; lia.
Qed.

Lemma between_false (lo c hi : Z) : c < lo \/ hi < c -> between lo c hi = false.
Proof.
  intros H. unfold between. apply andb_false_iff.
  destruct H; [left | right]; apply Z.leb_gt; lia.
Qed.

Lemma between_spec (lo c hi : Z) : between lo c hi = true -> lo <= c <= hi.
Proof.
  unfold between. intros H. apply andb_true_iff in H.
  destruct H as [H1 H2]. apply Z.leb_le in H1, H2. lia.
Qed.

Lemma between_spec_false (lo c hi : Z) :
  between lo c hi = false -> c < lo \/ hi < c.
Proof.
  unfold between. intros H. apply andb_false_iff in H.
  destruct H as [H | H]; apply Z.leb_gt in H; lia.
Qed.

Lemma code_units_check (s : jsstring) :
  forallb (fun c => between 0 c 65535) s = true -> Forall code_unit s.
Proof.
  intros H. apply Forall_forall. intros c Hc.
  rewrite forallb_forall in H. apply H, between_spec in Hc. exact Hc.
Qed.

Lemma plain_units_check (s : jsstring) :
  forallb (fun c => between 0 c 65535 && negb (between 55296 c 57343)) s = true ->
  Forall plain_unit s.
Proof.
  intros H. apply Forall_forall. intros c Hc.
  rewrite forallb_forall in H. apply H, andb_true_iff in Hc.
  destruct Hc as [H1 H2]. apply between_spec in H1.
  apply negb_true_iff, between_spec_false in H2.
  unfold plain_unit, code_unit. lia.
Qed.

(** Induction on a well-formed string: a code point at a time. *)
Lemma wellformed_ind (P : jsstring -> Prop) :
  P [] ->
  (forall c s,
      is_trailing_surrogate c = false -> is_leading_surrogate c = false ->
      between 0 c 65535 = true -> isWellFormed s = true -> P s ->
      P (c :: s)) ->
  (forall c c2 s,
      is_leading_surrogate c = true -> is_trailing_surrogate c2 = true ->
      isWellFormed s = true -> P s -> P (c :: c2 :: s)) ->
  forall s, isWellFormed s = true -> P s.
Proof.
  intros Hnil Hunit Hpair s.
  assert (H : forall n s, (length s <= n)%nat -> isWellFormed s = true -> P s).
  { clear s. induction n as [|n IH]; intros s Hlen Hwf.
    - destruct s; [exact Hnil | simpl in Hlen; lia].
    - destruct s as [|c rest]; [exact Hnil|].
      cbn [length] in Hlen. cbn [isWellFormed] in Hwf.
      destruct (is_trailing_surrogate c) eqn:Et; [discriminate|].
      destruct (is_leading_surrogate c) eqn:El.
      + destruct rest as [|c2 rest']; [discriminate|].
        apply andb_true_iff in Hwf. destruct Hwf as [Et2 Hwf].
        cbn [length] in Hlen. apply Hpair; auto. apply IH; [lia | exact Hwf].
      + apply andb_true_iff in Hwf. destruct Hwf as [Hr Hwf].
        apply Hunit; auto. apply IH; [lia | exact Hwf]. }
  apply (H (length s)). apply Nat.le_refl.
Qed.

Lemma leading_not_unescaped (c : Z) :
  is_leading_surrogate c = true ->
  unescaped c = false /\ is_trailing_surrogate c = false.
Proof.
  intros H. apply between_spec in H. split.
  - destruct (unescaped c) eqn:E; [|reflexivity].
    apply unescaped_ascii in E. lia.
  - apply between_false. lia.
Qed.

Lemma encode_unit (c : Z) (s : jsstring) :
  is_trailing_surrogate c = false -> is_leading_surrogate c = false ->
  encodeURIComponent (c :: s)
  = option_map (app (if unescaped c then [c] else flat_map escape (utf8 c)))
               (encodeURIComponent s).
Proof.
  intros Ht Hl. cbn [encodeURIComponent]. rewrite Ht, Hl.
  destruct (unescaped c); reflexivity.
Qed.

Lemma encode_pair (c c2 : Z) (s : jsstring) :
  is_leading_surrogate c = true -> is_trailing_surrogate c2 = true ->
  encodeURIComponent (c :: c2 :: s)
  = option_map (app (flat_map escape (utf8 (pair_to_code_point c c2))))
               (encodeURIComponent s).
Proof.
  intros Hl Ht2. destruct (leading_not_unescaped c Hl) as [Hu Ht].
  cbn [encodeURIComponent]. rewrite Hu, Ht, Hl, Ht2. reflexivity.
Qed.

Lemma hexdigit_unescaped (d : Z) : 0 <= d < 16 -> unescaped (hexdigit d) = true.
Proof.
  intros H. unfold unescaped, hexdigit. destruct (Z.ltb_spec d 10).
  - rewrite (between_true 48 (48 + d) 57) by lia.
    rewrite orb_true_r. reflexivity.
  - rewrite (between_true 65 (55 + d) 90) by lia. reflexivity.
Qed.

Lemma escaped_safe (bs : list Z) :
  Forall octet bs -> Forall (fun c => url_safe c = true) (flat_map escape bs).
Proof.
  induction 1 as [|b bs Hb _ IH]; [constructor|].
  unfold octet in Hb. cbn [flat_map escape app].
  constructor; [reflexivity|].
  constructor; [unfold url_safe; rewrite hexdigit_unescaped by arith; reflexivity|].
  constructor; [unfold url_safe; rewrite hexdigit_unescaped by arith; reflexivity|].
  exact IH.
Qed.

Lemma escaped_count (bs : list Z) :
  length (flat_map escape bs) = (3 * length bs)%nat.
Proof.
  induction bs as [|b bs IH]; [reflexivity|].
  cbn [flat_map escape app length]. rewrite IH. lia.
Qed.

Lemma utf8_count (cp : Z) :
  (1 <= length (utf8 cp) <= 4)%nat
  /\ (cp < 65536 -> (length (utf8 cp) <= 3)%nat).
Proof.
  unfold utf8.
  destruct (Z.ltb_spec cp 128); [|destruct (Z.ltb_spec cp 2048);
    [|destruct (Z.ltb_spec cp 65536)]]; cbn [length]; lia.
Qed.

(** What [encodeURIComponent] returns on a well-formed string: it succeeds,
    its result is made of unescaped characters and percent signs, and is at
    least as long as the string and at most nine times as long. *)
Lemma encode_wellformed :
  forall s, isWellFormed s = true ->
  exists e,
    encodeURIComponent s = Some e
    /\ Forall (fun c => url_safe c = true) e
    /\ (length s <= length e <= 9 * length s)%nat.
Proof.
  apply wellformed_ind.
  - exists []. repeat split; auto.
  - intros c s Ht Hl Hr Hs (e & He & Hsafe & Hlen).
    rewrite encode_unit, He by assumption. cbn [option_map].
    eexists. split; [reflexivity|].
    destruct (code_unit_scalar c Ht Hl Hr) as [Hsc _].
    apply between_spec in Hr.
    destruct (unescaped c) eqn:Eu.
    + split; [constructor; [unfold url_safe; rewrite Eu; reflexivity | exact Hsafe]|].
      cbn [app length]. lia.
    + split; [apply Forall_app; split; [apply escaped_safe, utf8_octets, Hsc | exact Hsafe]|].
      rewrite length_app, escaped_count. cbn [length].
      destruct (utf8_count c) as [H1 H2]. specialize (H2 ltac:(lia)). lia.
  - intros c c2 s Hl Ht2 Hs (e & He & Hsafe & Hlen).
    rewrite encode_pair, He by assumption. cbn [option_map].
    eexists. split; [reflexivity|].
    destruct (surrogate_pair c c2 Hl Ht2) as [Hsc _].
    split; [apply Forall_app; split; [apply escaped_safe, utf8_octets, Hsc | exact Hsafe]|].
    rewrite length_app, escaped_count. cbn [length].
    destruct (utf8_count (pair_to_code_point c c2)) as [H1 _]. lia.
Qed.

Lemma round_trip (s : jsstring) :
  isWellFormed s = true ->
  exists e, encodeURIComponent s = Some e /\ decodeURIComponent e = Some s.
Proof.
  intros Hwf.
  destruct (round_trip_fuel (length s) s (Nat.le_refl _) Hwf) as (e & He & Hdec).
  exists e. split; [exact He|]. apply Hdec. apply Nat.le_refl.
Qed.

Lemma safe_no_separator (e : jsstring) :
  Forall (fun c => url_safe c = true) e ->
  forall c, In c separators -> ~ In c e.
Proof.
  intros Hsafe c Hc Hin. rewrite Forall_forall in Hsafe. apply Hsafe in Hin.
  change separators with [38; 61; 35; 63; 47; 43; 32] in Hc.
  cbn [In] in Hc.
  repeat (destruct Hc as [<- | Hc]; [discriminate Hin|]). exact Hc.
Qed.

(** X11. The result of [encodeURIComponent] is made of unescaped characters
    and percent signs only: whatever the string, none of the separators
    [& = # ? / +] and no space is left in it. *)
Theorem encoded_has_no_separator (s e : jsstring) :
  isWellFormed s = true -> encodeURIComponent s = Some e ->
  Forall (fun c => url_safe c = true) e
  /\ forall c, In c separators -> ~ In c e.
Proof.
  intros Hwf He. destruct (encode_wellformed s Hwf) as (e' & He' & Hsafe & _).
  assert (e' = e) by congruence. subst e'. split; [exact Hsafe|].
  apply safe_no_separator, Hsafe.
Qed.

Lemma encoded_has_no_separator_witness :
  Forall (fun c => url_safe c = true) (units "a%26b%3Dc%20d")
  /\ forall c, In c separators -> ~ In c (units "a%26b%3Dc%20d").
Proof.
  apply (encoded_has_no_separator (units "a&b=c d")); reflexivity.
Defined.

(** X12. The result of [encodeURIComponent] is at least as long as the
    string and at most nine times as long. *)
Theorem encoded_length (s e : jsstring) :
  isWellFormed s = true -> encodeURIComponent s = Some e ->
  (length s <= length e <= 9 * length s)%nat.
Proof.
  intros Hwf He. destruct (encode_wellformed s Hwf) as (e' & He' & _ & Hlen).
  assert (e' = e) by congruence. subst e'. exact Hlen.
Qed.

Lemma encoded_length_witness :
  (length (units "a&b=c d") <= length (units "a%26b%3Dc%20d")
   <= 9 * length (units "a&b=c d"))%nat.
Proof.
  apply (encoded_length (units "a&b=c d")); reflexivity.
Defined.

Lemma encode_unescaped (s : jsstring) :
  Forall (fun c => unescaped c = true) s -> encodeURIComponent s = Some s.
Proof.
  induction 1 as [|c s Hc _ IH]; [reflexivity|].
  cbn [encodeURIComponent]. rewrite Hc, IH. reflexivity.
Qed.

(** X13. [encodeURIComponent] returns a string of unescaped characters
    (letters, digits and [- _ . ! ~ * ' ( )]) as it is. *)
Theorem encode_unescaped_unchanged (s : jsstring) :
  Forall (fun c => unescaped c = true) s -> encodeURIComponent s = Some s.
Proof.
  induction 1 as [|c s Hc _ IH]; [reflexivity|].
  cbn [encodeURIComponent]. rewrite Hc, IH. reflexivity.
Qed.

Lemma encode_unescaped_unchanged_witness :
  encodeURIComponent (units "minute") = Some (units "minute").
Proof.
  apply (encode_unescaped_unchanged (units "minute")).
  repeat constructor.
Defined.

Lemma Decode_plain (s : jsstring) :
  Forall (fun c => c <> 37) s ->
  forall fuel, (length s <= fuel)%nat -> Decode fuel s = Some s.
Proof.
  induction 1 as [|c s Hc _ IH]; intros fuel Hfuel; [apply Decode_nil|].
  cbn [length] in Hfuel. destruct fuel as [|fuel]; [lia|].
  cbn [Decode]. destruct (Z.eqb_spec c 37); [contradiction|].
  rewrite IH by lia. reflexivity.
Qed.

(** X14. [decodeURIComponent] returns a string without a percent sign as it
    is, whatever else the string holds. *)
Theorem decode_without_percent_unchanged (s : jsstring) :
  Forall (fun c => c <> 37) s -> decodeURIComponent s = Some s.
Proof.
  intros H. apply Decode_plain; [exact H | apply Nat.le_refl].
Qed.

Lemma decode_without_percent_unchanged_witness :
  decodeURIComponent (units "a&b=c d") = Some (units "a&b=c d").
Proof.
  apply (decode_without_percent_unchanged (units "a&b=c d")).
  repeat constructor; discriminate.
Defined.

Lemma code_unit_between (c : Z) : code_unit c -> between 0 c 65535 = true.
Proof. unfold code_unit. intros H. apply between_true. lia. Qed.

Lemma encode_illformed (n : nat) :
  forall s, (length s <= n)%nat -> Forall code_unit s ->
            isWellFormed s = false -> encodeURIComponent s = None.
Proof.
  induction n as [|n IH]; intros s Hlen Hcu Hwf.
  - destruct s; [discriminate | simpl in Hlen; lia].
  - destruct s as [|c rest]; [discriminate|].
    cbn [length] in Hlen. cbn [isWellFormed] in Hwf. cbn [encodeURIComponent].
    pose proof (Forall_inv Hcu) as Hc. apply Forall_inv_tail in Hcu.
    destruct (is_trailing_surrogate c) eqn:Et.
    + destruct (unescaped c) eqn:Eu; [|reflexivity].
      apply unescaped_ascii in Eu. apply between_spec in Et. lia.
    + destruct (is_leading_surrogate c) eqn:El.
      * destruct (leading_not_unescaped c El) as [Eu _]. rewrite Eu.
        destruct rest as [|c2 rest']; [reflexivity|].
        destruct (is_trailing_surrogate c2); [|reflexivity].
        cbn [andb length] in *. apply Forall_inv_tail in Hcu.
        rewrite (IH rest') by (auto; lia). reflexivity.
      * rewrite (code_unit_between c Hc) in Hwf. cbn [andb] in Hwf.
        rewrite (IH rest) by (auto; lia). destruct (unescaped c); reflexivity.
Qed.

(** X15. On a string of UTF-16 code units, [encodeURIComponent] throws
    exactly when the string is not well formed, that is when it holds a
    surrogate without its partner. *)
Theorem encode_throws_iff_illformed (s : jsstring) :
  Forall code_unit s ->
  (encodeURIComponent s = None <-> isWellFormed s = false).
Proof.
  intros Hcu. split.
  - intros Hnone. destruct (isWellFormed s) eqn:Hwf; [|reflexivity].
    destruct (round_trip s Hwf) as (e & He & _). congruence.
  - apply (encode_illformed (length s)); [apply Nat.le_refl | exact Hcu].
Qed.

Lemma encode_throws_iff_illformed_witness :
  encodeURIComponent [97; 56320] = None <-> isWellFormed [97; 56320] = false.
Proof.
  apply (encode_throws_iff_illformed [97; 56320]).
  apply code_units_check. reflexivity.
Defined.

Lemma encode_inj (s1 s2 : jsstring) :
  isWellFormed s1 = true -> isWellFormed s2 = true ->
  encodeURIComponent s1 = encodeURIComponent s2 -> s1 = s2.
Proof.
  intros H1 H2 Heq.
  destruct (round_trip s1 H1) as (e1 & He1 & Hd1).
  destruct (round_trip s2 H2) as (e2 & He2 & Hd2).
  assert (e1 = e2) by congruence. subst e2. congruence.
Qed.

(** X16. [encodeURIComponent] is injective on well-formed strings: two
    expressions with the same encoding are the same expression. *)
Theorem encode_injective (s1 s2 : jsstring) :
  isWellFormed s1 = true -> isWellFormed s2 = true ->
  encodeURIComponent s1 = encodeURIComponent s2 -> s1 = s2.
Proof.
  intros H1 H2 Heq.
  destruct (round_trip s1 H1) as (e1 & He1 & Hd1).
  destruct (round_trip s2 H2) as (e2 & He2 & Hd2).
  assert (e1 = e2) by congruence. subst e2. congruence.
Qed.

Lemma encode_injective_witness : units "a b" = [97; 32; 98].
Proof.
  apply (encode_injective (units "a b") [97; 32; 98]); reflexivity.
Defined.

End UrlTextFacts.

(** * The expression, the fragment and the request URL *)

Section ConsoleFacts.

Import URI UrlText Client Console.

Local Open Scope Z_scope.

Ltac arith := Z.div_mod_to_equations; lia.

Lemma hexval_range (c v : Z) : hexval c = Some v -> 0 <= v < 16.
Proof.
  unfold hexval.
  destruct (between 48 c 57) eqn:E1;
    [|destruct (between 65 c 70) eqn:E2; [|destruct (between 97 c 102) eqn:E3]];
    intros H; try discriminate; injection H as <-;
    [apply between_spec in E1 | apply between_spec in E2
     | apply between_spec in E3]; lia.
Qed.

Lemma unescape_some (s : jsstring) (b : Z) (rest : jsstring) :
  unescape s = Some (b, rest) ->
  octet b /\ exists c1 c2, s = 37 :: c1 :: c2 :: rest.
Proof.
  unfold unescape. destruct s as [|p [|c1 [|c2 s']]]; try discriminate.
  destruct (Z.eqb_spec p 37) as [->|]; [|discriminate].
  destruct (hexval c1) as [hi|] eqn:E1; [|discriminate].
  destruct (hexval c2) as [lo|] eqn:E2; [|discriminate].
  intros H.
  assert (Hb : b = 16 * hi + lo /\ rest = s') by (split; congruence).
  destruct Hb as [-> ->].
  apply hexval_range in E1, E2. split; [unfold octet; lia | eauto].
Qed.

Lemma continuation_some (n : nat) :
  forall s bs rest,
    continuation n s = Some (bs, rest) ->
    length bs = n /\ exists pre, s = pre ++ rest.
Proof.
  induction n as [|n IH]; intros s bs rest H; cbn [continuation] in H.
  - injection H as <- <-. split; [reflexivity | exists []; reflexivity].
  - destruct (unescape s) as [[b rest1]|] eqn:E; [|discriminate].
    destruct (continuation n rest1) as [[bs' rest']|] eqn:E'; [|discriminate].
    injection H as <- <-.
    destruct (IH _ _ _ E') as [Hlen [pre Hpre]].
    destruct (unescape_some _ _ _ E) as [_ (c1 & c2 & Hs)].
    split; [simpl; congruence|].
    exists (37 :: c1 :: c2 :: pre). rewrite Hs, Hpre. reflexivity.
Qed.

Lemma leading_ones_spec (b : Z) :
  match leading_ones b with
  | 0%nat => b < 128
  | 1%nat => 128 <= b < 192
  | 2%nat => 192 <= b < 224
  | 3%nat => 224 <= b < 240
  | 4%nat => 240 <= b < 248
  | _ => 248 <= b
  end.
Proof.
  unfold leading_ones.
  destruct (Z.ltb_spec b 128); [assumption|].
  destruct (Z.ltb_spec b 192); [lia|].
  destruct (Z.ltb_spec b 224); [lia|].
  destruct (Z.ltb_spec b 240); [lia|].
  destruct (Z.ltb_spec b 248); [lia|]. assumption.
Qed.

Lemma is_continuation_spec (b : Z) : is_continuation b = true -> 128 <= b <= 191.
Proof. apply between_spec. Qed.

(** The code point of a decoded sequence is a scalar value. *)
Lemma utf8_code_point_scalar (b : Z) (bs : list Z) (v : Z) :
  (leading_ones b = S (length bs))%nat ->
  utf8_code_point (b :: bs) = Some v -> scalar v.
Proof.
  intros Hlead H. pose proof (leading_ones_spec b) as Hb. rewrite Hlead in Hb.
  unfold utf8_code_point in H. unfold scalar.
  destruct bs as [|b1 [|b2 [|b3 [|b4 bs]]]]; try discriminate; cbn [length] in Hb.
  - destruct (is_continuation b1) eqn:E1; [|discriminate].
    destruct (Z.leb_spec 128 ((b - 192) * 64 + (b1 - 128))); [|discriminate].
    cbn [andb] in H. injection H as <-.
    apply is_continuation_spec in E1. lia.
  - destruct (is_continuation b1) eqn:E1; [|discriminate].
    destruct (is_continuation b2) eqn:E2; [|discriminate].
    destruct (Z.leb_spec 2048 ((b - 224) * 4096 + (b1 - 128) * 64 + (b2 - 128)));
      [|discriminate].
    destruct (between 55296 ((b - 224) * 4096 + (b1 - 128) * 64 + (b2 - 128))
                      57343) eqn:Es; [discriminate|].
    cbn [andb negb] in H. injection H as <-.
    apply is_continuation_spec in E1, E2. apply between_spec_false in Es. lia.
  - destruct (is_continuation b1) eqn:E1; [|discriminate].
    destruct (is_continuation b2) eqn:E2; [|discriminate].
    destruct (is_continuation b3) eqn:E3; [|discriminate].
    destruct (Z.leb_spec 65536 ((b - 240) * 262144 + (b1 - 128) * 4096
                                + (b2 - 128) * 64 + (b3 - 128))); [|discriminate].
    destruct (Z.leb_spec ((b - 240) * 262144 + (b1 - 128) * 4096
                          + (b2 - 128) * 64 + (b3 - 128)) 1114111); [|discriminate].
    cbn [andb] in H. injection H as <-. lia.
Qed.

Lemma decode_octets_some (b : Z) (rest1 decoded rest2 : jsstring) :
  octet b -> decode_octets b rest1 = Some (decoded, rest2) ->
  (exists v, scalar v /\ decoded = UTF16EncodeCodePoint v)
  /\ exists pre, rest1 = pre ++ rest2.
Proof.
  unfold octet. intros Hb H. unfold decode_octets in H.
  pose proof (leading_ones_spec b) as Hl.
  destruct (leading_ones b) as [|[|n]] eqn:E.
  - injection H as <- <-. split; [|exists []; reflexivity].
    exists b. split; [unfold scalar; lia|].
    unfold UTF16EncodeCodePoint. destruct (Z.ltb_spec b 65536); [reflexivity | lia].
  - discriminate.
  - assert (Hn : match n with
                 | S (S (S _)) => None
                 | _ =>
                     match continuation (S n) rest1 with
                     | None => None
                     | Some (bs, rest2') =>
                         match utf8_code_point (b :: bs) with
                         | None => None
                         | Some v => Some (UTF16EncodeCodePoint v, rest2')
                         end
                     end
                 end = Some (decoded, rest2)).
    { destruct n as [|[|[|n]]]; exact H. }
    clear H.
    assert (Hc : exists bs v,
               continuation (S n) rest1 = Some (bs, rest2)
               /\ utf8_code_point (b :: bs) = Some v
               /\ decoded = UTF16EncodeCodePoint v).
    { destruct n as [|[|[|n]]]; try discriminate;
        (destruct (continuation _ rest1) as [[bs r]|] eqn:Ec; [|discriminate]);
        (destruct (utf8_code_point (b :: bs)) as [v|] eqn:Ev; [|discriminate]);
        injection Hn as <- <-; exists bs, v; auto. }
    destruct Hc as (bs & v & Hcont & Hv & ->).
    destruct (continuation_some _ _ _ _ Hcont) as [Hlen Hpre].
    split; [|exact Hpre]. exists v. split; [|reflexivity].
    apply (utf8_code_point_scalar b bs); [congruence | exact Hv].
Qed.

Lemma utf16_wellformed (v : Z) (x : jsstring) :
  scalar v -> isWellFormed (UTF16EncodeCodePoint v ++ x) = isWellFormed x.
Proof.
  intros [Hr Hs]. unfold UTF16EncodeCodePoint.
  destruct (Z.ltb_spec v 65536).
  - cbn [app isWellFormed]. unfold is_trailing_surrogate, is_leading_surrogate.
    rewrite (between_false 56320 v 57343), (between_false 55296 v 56319) by lia.
    rewrite (between_true 0 v 65535) by lia. reflexivity.
  - cbn [app isWellFormed]. unfold is_trailing_surrogate, is_leading_surrogate.
    rewrite (between_false 56320 ((v - 65536) / 1024 + 55296) 57343) by arith.
    rewrite (between_true 55296 ((v - 65536) / 1024 + 55296) 56319) by arith.
    rewrite (between_true 56320 ((v - 65536) mod 1024 + 56320) 57343) by arith.
    reflexivity.
Qed.

(** Whatever [Decode] returns on a string without surrogates is well
    formed. *)
Lemma Decode_wellformed (fuel : nat) :
  forall h x, Forall plain_unit h -> Decode fuel h = Some x ->
              isWellFormed x = true.
Proof.
  induction fuel as [|fuel IH]; intros h x Hplain H.
  - destruct h; [|discriminate]. injection H as <-. reflexivity.
  - destruct h as [|c rest]; [injection H as <-; reflexivity|].
    cbn [Decode] in H. destruct (Z.eqb_spec c 37) as [->|Hc].
    + destruct (unescape (37 :: rest)) as [[b rest1]|] eqn:Eu; [|discriminate].
      destruct (decode_octets b rest1) as [[decoded rest2]|] eqn:Ed; [|discriminate].
      destruct (Decode fuel rest2) as [x'|] eqn:Ex; [|discriminate].
      injection H as <-.
      destruct (unescape_some _ _ _ Eu) as [Hb (c1 & c2 & Hs)].
      destruct (decode_octets_some _ _ _ _ Hb Ed) as [(v & Hv & ->) [pre Hpre]].
      rewrite (utf16_wellformed v x' Hv). apply (IH rest2); [|exact Ex].
      injection Hs as ->. subst rest1.
      apply Forall_inv_tail, Forall_inv_tail, Forall_inv_tail in Hplain.
      apply Forall_app in Hplain. tauto.
    + destruct (Decode fuel rest) as [x'|] eqn:Ex; [|discriminate].
      injection H as <-. pose proof (Forall_inv Hplain) as [Hcu Hns].
      apply Forall_inv_tail in Hplain. unfold code_unit in Hcu.
      cbn [isWellFormed]. unfold is_trailing_surrogate, is_leading_surrogate.
      rewrite (between_false 56320 c 57343), (between_false 55296 c 56319) by lia.
      rewrite (between_true 0 c 65535) by lia. apply (IH rest); assumption.
Qed.

(** X17. When the fragment the browser hands over holds no surrogate and
    decodes to an expression, the expression is well formed, the
    re-encoding of [jsapiLoaded_] does not throw, and the re-encoded
    fragment reads back as the same expression and is its own
    re-encoding. *)
Theorem fragment_reencoding_stable (hash expr : jsstring) :
  Forall plain_unit hash -> read_expr hash = Some expr ->
  isWellFormed expr = true
  /\ exists e,
       reencoded_hash hash = Some e
       /\ read_expr (35 :: e) = Some expr
       /\ reencoded_hash (35 :: e) = Some e.
Proof.
  intros Hplain Hread.
  assert (Hwf : isWellFormed expr = true).
  { apply (Decode_wellformed (length (substring1 hash)) (substring1 hash));
      [|exact Hread].
    destruct hash; [constructor | exact (Forall_inv_tail Hplain)]. }
  split; [exact Hwf|].
  destruct (round_trip expr Hwf) as (e & He & Hd).
  exists e. unfold reencoded_hash. rewrite Hread.
  assert (Hread' : read_expr (35 :: e) = Some expr) by exact Hd.
  rewrite Hread'. auto.
Qed.

Lemma fragment_reencoding_stable_witness :
  isWellFormed (units "a b") = true
  /\ exists e,
       reencoded_hash (units "#a%20b") = Some e
       /\ read_expr (35 :: e) = Some (units "a b")
       /\ reencoded_hash (35 :: e) = Some e.
Proof.
  apply (fragment_reencoding_stable (units "#a%20b") (units "a b")).
  - apply plain_units_check. reflexivity.
  - reflexivity.
Defined.

(** X18. For a well-formed expression and a resolution made of unescaped
    characters, the request URL is the base URL followed by
    [/get?start=-], the window, [&resolution=], the resolution as it is,
    [&expr=] and the encoded expression; the encoded expression holds no
    separator and decodes to the expression. *)
Theorem watch_url_shape (baseURL expr start resolution : jsstring) :
  isWellFormed expr = true ->
  Forall (fun c => unescaped c = true) resolution ->
  exists e,
    url_ baseURL expr start resolution
    = Some (baseURL ++ units "/get?start=-" ++ start
              ++ units "&resolution=" ++ resolution ++ units "&expr=" ++ e)
    /\ decodeURIComponent e = Some expr
    /\ forall c, In c separators -> ~ In c e.
Proof.
  intros Hwf Hres.
  destruct (encode_wellformed expr Hwf) as (e & He & Hsafe & _).
  destruct (round_trip expr Hwf) as (e' & He' & Hd).
  assert (e' = e) by congruence. subst e'.
  exists e. unfold url_. rewrite (encode_unescaped resolution Hres), He.
  split; [reflexivity|]. split; [exact Hd|]. apply safe_no_separator, Hsafe.
Qed.

Lemma watch_url_shape_witness :
  exists e,
    url_ (units "/api") (units "a&b") (units "1200") (units "full")
    = Some (units "/api" ++ units "/get?start=-" ++ units "1200"
              ++ units "&resolution=" ++ units "full" ++ units "&expr=" ++ e)
    /\ decodeURIComponent e = Some (units "a&b")
    /\ forall c, In c separators -> ~ In c e.
Proof.
  apply (watch_url_shape (units "/api") (units "a&b") (units "1200")
           (units "full")).
  - reflexivity.
  - repeat constructor.
Defined.

(** X19. On strings of UTF-16 code units, computing the request URL throws
    exactly when the resolution or the expression is not well formed. *)
Theorem watch_url_throws_iff (baseURL expr start resolution : jsstring) :
  Forall code_unit expr -> Forall code_unit resolution ->
  (url_ baseURL expr start resolution = None
   <-> isWellFormed resolution = false \/ isWellFormed expr = false).
Proof.
  intros Hexpr Hres. unfold url_. split.
  - intros H. destruct (isWellFormed resolution) eqn:Hr; [|left; reflexivity].
    destruct (isWellFormed expr) eqn:He; [|right; reflexivity].
    destruct (round_trip resolution Hr) as (r & Er & _).
    destruct (round_trip expr He) as (e & Ee & _).
    rewrite Er, Ee in H. discriminate.
  - intros [H | H].
    + rewrite (encode_illformed (length resolution) resolution) by auto.
      reflexivity.
    + rewrite (encode_illformed (length expr) expr) by auto.
      destruct (encodeURIComponent resolution); reflexivity.
Qed.

Lemma watch_url_throws_iff_witness :
  url_ (units "/api") [55296] (units "1200") (units "full") = None
  <-> isWellFormed (units "full") = false \/ isWellFormed [55296] = false.
Proof.
  apply (watch_url_throws_iff (units "/api") [55296] (units "1200")
           (units "full")).
  - apply code_units_check. reflexivity.
  - apply code_units_check. reflexivity.
Defined.

Lemma some_inj (A : Type) (x y : A) : Some x = Some y -> x = y.
Proof. congruence. Qed.

(** X20. The request URL determines the expression: two well-formed
    expressions that give the same URL, for the same base URL, window and
    resolution, are the same expression. *)
Theorem watch_url_determines_expr
  (baseURL start resolution expr1 expr2 u : jsstring) :
  isWellFormed expr1 = true -> isWellFormed expr2 = true ->
  url_ baseURL expr1 start resolution = Some u ->
  url_ baseURL expr2 start resolution = Some u ->
  expr1 = expr2.
Proof.
  intros H1 H2. unfold url_.
  destruct (encodeURIComponent resolution) as [r|]; [|discriminate].
  destruct (encodeURIComponent expr1) as [e1|] eqn:E1; [|discriminate].
  destruct (encodeURIComponent expr2) as [e2|] eqn:E2; [|discriminate].
  intros Hu1 Hu2. pose proof (eq_trans Hu1 (eq_sym Hu2)) as Hu.
  apply some_inj in Hu.
  repeat apply app_inv_head in Hu. apply (encode_inj expr1 expr2 H1 H2).
  congruence.
Qed.

Lemma watch_url_determines_expr_witness : units "a b" = [97; 32; 98].
Proof.
  apply (watch_url_determines_expr (units "/api") (units "1200")
           (units "full") (units "a b") [97; 32; 98]
           (units "/api/get?start=-1200&resolution=full&expr=a%20b"));
    reflexivity.
Defined.

(** X21. Creating the watches of the four charts for an expression read
    from a fragment without surrogates never throws: for each configured
    resolution, with or without a base URL given to the client, the request
    URL is computed. *)
Theorem chart_watch_url_defined
  (hash expr start resolution : jsstring) (opt_baseURL : option jsstring) :
  Forall plain_unit hash -> read_expr hash = Some expr ->
  In resolution resolutions ->
  exists u, url_ (baseURL_ opt_baseURL) expr start resolution = Some u
            /\ baseURL_ opt_baseURL <> [].
Proof.
  intros Hplain Hread Hres.
  assert (Hwf : isWellFormed expr = true).
  { apply (Decode_wellformed (length (substring1 hash)) (substring1 hash));
      [|exact Hread].
    destruct hash; [constructor | exact (Forall_inv_tail Hplain)]. }
  assert (Hun : Forall (fun c => unescaped c = true) resolution).
  { unfold resolutions in Hres. cbn [In] in Hres.
    repeat (destruct Hres as [<- | Hres]; [repeat constructor|]).
    contradiction. }
  destruct (round_trip expr Hwf) as (e & He & _).
  unfold url_. rewrite (encode_unescaped resolution Hun), He.
  eexists. split; [reflexivity|].
  destruct opt_baseURL as [[|c rest]|]; discriminate.
Qed.

Lemma chart_watch_url_defined_witness :
  exists u, url_ (baseURL_ None) (units "a b") (units "7200") (units "minute")
            = Some u
            /\ baseURL_ None <> [].
Proof.
  apply (chart_watch_url_defined (units "#a%20b") (units "a b")
           (units "7200") (units "minute") None).
  - apply plain_units_check. reflexivity.
  - reflexivity.
  - right. left. reflexivity.
Defined.

End ConsoleFacts.
